(** * LC-3 virtual machine (src/index.ts): a shallow embedding and its properties

    The interpreter is a TypeScript program over two [Uint16Array]s (memory
    and registers), a [running] flag and the host terminal.  TypeScript's
    [Uint16] annotation is an alias of [number], so every value that flows
    through the handlers is a JavaScript number (or [undefined] / [NaN] when
    an index falls outside a typed array).  The embedding keeps that: values
    are [JS.value], the typed arrays wrap on store and answer [undefined]
    out of range, and the handlers are written in a small state monad whose
    outcomes also cover [process.exit], an uncaught exception and a loop that
    never stops. *)

From Stdlib Require Import ZArith Lia List Bool Strings.Byte Strings.Ascii Strings.String.
From stdpp Require Import base option list gmap.

Local Open Scope Z_scope.

(** ** The fragment of JavaScript arithmetic used by the interpreter *)

Module JS.

(** Numbers are integers here: every number the interpreter builds is an
    integer far below 2^53, where double arithmetic is exact. *)
Inductive value : Type :=
| Num (z : Z)
| NaN
| Undefined.

Definition wrap32 (z : Z) : Z := (z + 2 ^ 31) mod 2 ^ 32 - 2 ^ 31.

Definition toInt32 (v : value) : Z :=
  match v with Num z => wrap32 z | _ => 0 end.

Definition toUint16 (v : value) : Z :=
  match v with Num z => z mod 65536 | _ => 0 end.

Definition toUint8 (v : value) : Z :=
  match v with Num z => z mod 256 | _ => 0 end.

(** [if (v)] *)
Definition truthy (v : value) : bool :=
  match v with Num z => negb (z =? 0) | _ => false end.

(** [a === b] *)
Definition strict_eq (a b : value) : bool :=
  match a, b with
  | Num x, Num y => x =? y
  | Undefined, Undefined => true
  | _, _ => false
  end.

(** [a + b], [a - b] on numbers; [undefined] converts to [NaN]. *)
Definition num_add (a b : value) : value :=
  match a, b with Num x, Num y => Num (x + y) | _, _ => NaN end.

Definition num_sub (a b : value) : value :=
  match a, b with Num x, Num y => Num (x - y) | _, _ => NaN end.

(** The bitwise operators work on the 32-bit signed conversions. *)
Definition band (a b : value) : value := Num (Z.land (toInt32 a) (toInt32 b)).
Definition bxor (a b : value) : value := Num (Z.lxor (toInt32 a) (toInt32 b)).
Definition bnot (a : value) : value := Num (Z.lnot (toInt32 a)).

(** [a << n] and [a >> n]: the shift count is taken modulo 32. *)
Definition shl (a n : value) : value :=
  Num (wrap32 (Z.shiftl (toInt32 a) (toInt32 n mod 32))).
Definition shr (a n : value) : value :=
  Num (Z.shiftr (toInt32 a) (toInt32 n mod 32)).

End JS.

Import JS.

#[global] Instance value_eq_dec : EqDecision value.
Proof. solve_decision. Defined.

(** ** Constants of the program *)

Definition MEMORY_SIZE : Z := 65536.

Definition R_R0 : Z := 0.
Definition R_R1 : Z := 1.
Definition R_R2 : Z := 2.
Definition R_R3 : Z := 3.
Definition R_R4 : Z := 4.
Definition R_R5 : Z := 5.
Definition R_R6 : Z := 6.
Definition R_R7 : Z := 7.
Definition R_PC : Z := 8.
Definition R_COND : Z := 9.
Definition R_COUNT : Z := 10.

Definition OP_BR : Z := 0.
Definition OP_ST : Z := 3.
Definition OP_JSR : Z := 4.
Definition OP_STR : Z := 7.
Definition OP_RTI : Z := 8.
Definition OP_STI : Z := 11.
Definition OP_JMP : Z := 12.
Definition OP_RES : Z := 13.
Definition OP_LEA : Z := 14.
Definition OP_TRAP : Z := 15.

Definition FL_POS : Z := 1.
Definition FL_ZRO : Z := 2.
Definition FL_NEG : Z := 4.

Definition MR_KBSR : Z := 0xFE00.
Definition MR_KBDR : Z := 0xFE02.

Definition TRAP_GETC : Z := 0x20.
Definition TRAP_OUT : Z := 0x21.
Definition TRAP_PUTS : Z := 0x22.
Definition TRAP_IN : Z := 0x23.
Definition TRAP_PUTSP : Z := 0x24.
Definition TRAP_HALT : Z := 0x25.

Definition PC_START : Z := 0x3000.

(** [const SIGN_BIT = 1 << 15] *)
Definition SIGN_BIT : value := shl (Num 1) (Num 15).

(** ** Arithmetic primitives *)

(** [signExtend(x, bitCount)]:
    [m = 1 << (bitCount - 1); x &= (1 << bitCount) - 1; return (x ^ m) - m]. *)
Definition signExtend (x bitCount : value) : value :=
  let m := shl (Num 1) (num_sub bitCount (Num 1)) in
  let x := band x (num_sub (shl (Num 1) bitCount) (Num 1)) in
  num_sub (bxor x m) m.

(** ** Machine state *)

(** A [Uint16Array] of a fixed length: element [k] reads as 0 until it is
    stored to.  An index that is not a number names an ordinary property of
    the array object; the only such key the program can produce is
    [undefined] (the result of indexing out of range, used again as an
    index by the indirect load and store). *)
Record Uint16Array : Type := mkArray {
  cells : gmap Z Z;
  prop_undefined : value
}.

Definition new_Uint16Array : Uint16Array :=
  {| cells := ∅; prop_undefined := Undefined |}.

Definition valid_index (n k : Z) : bool := (0 <=? k) && (k <? n).

(** [a[i]] for an array of length [n] *)
Definition ta_get (n : Z) (a : Uint16Array) (i : value) : value :=
  match i with
  | Num k => if valid_index n k then Num (default 0 (cells a !! k)) else Undefined
  | NaN => Undefined
  | Undefined => prop_undefined a
  end.

(** [a[i] = v]: the store converts to 16 bits; out of range it is dropped. *)
Definition ta_set (n : Z) (a : Uint16Array) (i v : value) : Uint16Array :=
  match i with
  | Num k =>
      if valid_index n k
      then {| cells := <[k := toUint16 v]> (cells a); prop_undefined := prop_undefined a |}
      else a
  | NaN => a
  | Undefined => {| cells := cells a; prop_undefined := v |}
  end.

(** The host terminal.  [keyIn_input n] is what the [n]-th keyboard request
    returns when it is [keyIn('').trim()] (a string, as its UTF-16 code
    units); [keyInYN_answer n] is whether that request, when it is the quit
    confirmation, is answered with yes.  [stdout] is every byte written so
    far, oldest first. *)
Record Host : Type := mkHost {
  keyIn_input : nat → list Z;
  keyInYN_answer : nat → bool;
  consumed : nat;
  stdout : list Z
}.

Record state : Type := mkState {
  memory : Uint16Array;
  registers : Uint16Array;
  running : Z;
  host : Host
}.

Definition set_memory (m : Uint16Array) (s : state) : state :=
  {| memory := m; registers := registers s; running := running s; host := host s |}.
Definition set_registers (r : Uint16Array) (s : state) : state :=
  {| memory := memory s; registers := r; running := running s; host := host s |}.
Definition set_running (b : Z) (s : state) : state :=
  {| memory := memory s; registers := registers s; running := b; host := host s |}.
Definition set_host (h : Host) (s : state) : state :=
  {| memory := memory s; registers := registers s; running := running s; host := h |}.

Definition advance (h : Host) : Host :=
  {| keyIn_input := keyIn_input h; keyInYN_answer := keyInYN_answer h;
     consumed := S (consumed h); stdout := stdout h |}.
Definition emit (bytes : list Z) (h : Host) : Host :=
  {| keyIn_input := keyIn_input h; keyInYN_answer := keyInYN_answer h;
     consumed := consumed h; stdout := stdout h ++ bytes |}.

(** ** The monad of the interpreter *)

(** A call either returns, ends the process ([process.exit]), dies on an
    uncaught exception, or never comes back from a loop. *)
Inductive outcome (A : Type) : Type :=
| Ret (a : A) (s : state)
| Exit (code : Z) (s : state)
| Throw (s : state)
| Diverge.

Arguments Ret {A} a s.
Arguments Exit {A} code s.
Arguments Throw {A} s.
Arguments Diverge {A}.

Definition M (A : Type) : Type := state → outcome A.

Definition ret {A} (a : A) : M A := λ s, Ret a s.

Definition bind {A B} (c : M A) (k : A → M B) : M B :=
  λ s, match c s with
       | Ret a s' => k a s'
       | Exit code s' => Exit code s'
       | Throw s' => Throw s'
       | Diverge => Diverge
       end.

Notation "'let*' x := c 'in' k" := (bind c (λ x, k))
  (at level 10, x name, c at level 100, k at level 200).
Notation "c >> k" := (bind c (λ _, k))
  (at level 100, k at level 200, right associativity).

Definition process_exit {A} (code : Z) : M A := λ s, Exit code s.
Definition never {A} : M A := λ _, Diverge.

Definition reg (i : value) : M value :=
  λ s, Ret (ta_get R_COUNT (registers s) i) s.
Definition set_reg (i v : value) : M unit :=
  λ s, Ret tt (set_registers (ta_set R_COUNT (registers s) i v) s).
Definition mem (i : value) : M value :=
  λ s, Ret (ta_get MEMORY_SIZE (memory s) i) s.
Definition set_mem (i v : value) : M unit :=
  λ s, Ret tt (set_memory (ta_set MEMORY_SIZE (memory s) i v) s).
Definition set_run (b : Z) : M unit := λ s, Ret tt (set_running b s).

Definition keyIn : M (list Z) :=
  λ s, Ret (keyIn_input (host s) (consumed (host s))) (set_host (advance (host s)) s).
Definition keyInYN : M bool :=
  λ s, Ret (keyInYN_answer (host s) (consumed (host s))) (set_host (advance (host s)) s).
Definition stdout_write (bytes : list Z) : M unit :=
  λ s, Ret tt (set_host (emit bytes (host s)) s).

(** ** Host strings: UTF-8 *)

Module Utf8.

(** The decoder behind [Buffer.prototype.toString('utf8')]: well-formed
    sequences give their code point, every maximal ill-formed part gives
    U+FFFD.  [needed] continuation bytes are still awaited for the code
    point accumulated in [cp]; the next one must lie in [lower, upper]. *)
Record pending : Type := mkPending {
  cp : Z;
  needed : nat;
  lower : Z;
  upper : Z
}.

Definition replacement : Z := 0xFFFD.

Definition within (lo hi b : Z) : bool := (lo <=? b) && (b <=? hi).

(** A byte met when no sequence is open: a code point, the start of a
    sequence, or an error. *)
Definition lead (b : Z) : list Z * option pending :=
  if within 0x00 0x7F b then ([b], None)
  else if within 0xC2 0xDF b then
    ([], Some (mkPending (Z.land b 0x1F) 1 0x80 0xBF))
  else if within 0xE0 0xEF b then
    ([], Some (mkPending (Z.land b 0xF) 2
                 (if b =? 0xE0 then 0xA0 else 0x80)
                 (if b =? 0xED then 0x9F else 0xBF)))
  else if within 0xF0 0xF4 b then
    ([], Some (mkPending (Z.land b 0x7) 3
                 (if b =? 0xF0 then 0x90 else 0x80)
                 (if b =? 0xF4 then 0x8F else 0xBF)))
  else ([replacement], None).

Fixpoint decode_from (st : option pending) (bytes : list Z) : list Z :=
  match bytes with
  | [] => match st with None => [] | Some _ => [replacement] end
  | b :: rest =>
      match st with
      | None => let '(out, st') := lead b in out ++ decode_from st' rest
      | Some p =>
          if within (lower p) (upper p) b then
            let c := Z.lor (Z.shiftl (cp p) 6) (Z.land b 0x3F) in
            match needed p with
            | S (S n) => decode_from (Some (mkPending c (S n) 0x80 0xBF)) rest
            | _ => c :: decode_from None rest
            end
          else
            let '(out, st') := lead b in
            replacement :: out ++ decode_from st' rest
      end
  end.

Definition decode (bytes : list Z) : list Z := decode_from None bytes.

(** The encoder behind [process.stdout.write(string)]. *)
Definition encode1 (c : Z) : list Z :=
  if c <? 0x80 then [c]
  else if c <? 0x800 then
    [Z.lor 0xC0 (Z.shiftr c 6); Z.lor 0x80 (Z.land c 0x3F)]
  else if c <? 0x10000 then
    [Z.lor 0xE0 (Z.shiftr c 12); Z.lor 0x80 (Z.land (Z.shiftr c 6) 0x3F);
     Z.lor 0x80 (Z.land c 0x3F)]
  else
    [Z.lor 0xF0 (Z.shiftr c 18); Z.lor 0x80 (Z.land (Z.shiftr c 12) 0x3F);
     Z.lor 0x80 (Z.land (Z.shiftr c 6) 0x3F); Z.lor 0x80 (Z.land c 0x3F)].

Definition encode (s : list Z) : list Z := flat_map encode1 s.

End Utf8.

(** ** Host input and output *)

Definition bytes_of_string (s : string) : list Z :=
  map (λ c, Z.of_N (N_of_ascii c)) (list_ascii_of_string s).

(** [console.log(s)] writes [s] and a line feed. *)
Definition console_log (s : string) : M unit :=
  stdout_write (bytes_of_string s ++ [10]).

(** [putBuf(data)]: [Buffer.from(data)] keeps the low 8 bits of each entry,
    [toString('utf8')] decodes those bytes, and [process.stdout.write]
    encodes the resulting string again. *)
Definition putBuf (data : list value) : M unit :=
  stdout_write (Utf8.encode (Utf8.decode (map toUint8 data))).

(** [input.toLowerCase() === 'q'] *)
Definition is_q (input : list Z) : bool :=
  match input with
  | [c] => (c =? 113) || (c =? 81)
  | _ => false
  end.

(** [input.charCodeAt(0)] *)
Definition charCodeAt0 (input : list Z) : value :=
  match input with
  | [] => NaN
  | c :: _ => Num c
  end.

Definition getChar : M value :=
  let* input := keyIn in
  (if is_q input then
     let* yes := keyInYN in
     if yes then process_exit 0 else ret tt
   else ret tt) >>
  ret (charCodeAt0 input).

(** ** Memory interface *)

Definition memWrite (address val : value) : M unit := set_mem address val.

Definition memRead (address : value) : M value :=
  (if strict_eq address (Num MR_KBSR) then
     let* input := getChar in
     if truthy input then
       set_mem (Num MR_KBSR) (shl (Num 1) (Num 15)) >>
       set_mem (Num MR_KBDR) input
     else set_mem (Num MR_KBSR) (Num 0x00)
   else ret tt) >>
  mem address.

(** ** Instruction handlers *)

Definition updateFlags (r : value) : M unit :=
  let* v := reg r in
  if strict_eq v (Num 0) then set_reg (Num R_COND) (Num FL_ZRO)
  else
    let* v := reg r in
    if truthy (band v SIGN_BIT) then set_reg (Num R_COND) (Num FL_NEG)
    else set_reg (Num R_COND) (Num FL_POS).

Definition add (instr : value) : M unit :=
  let r0 := band (shr instr (Num 9)) (Num 0x7) in
  let r1 := band (shr instr (Num 6)) (Num 0x7) in
  let immFlag := band (shr instr (Num 5)) (Num 0x1) in
  (if truthy immFlag then
     let imm5 := signExtend (band instr (Num 0x1F)) (Num 5) in
     let* a := reg r1 in
     set_reg r0 (num_add a imm5)
   else
     let r2 := band instr (Num 0x7) in
     let* a := reg r1 in
     let* b := reg r2 in
     set_reg r0 (num_add a b)) >>
  updateFlags r0.

Definition loadIndirect (instr : value) : M unit :=
  let r0 := band (shr instr (Num 9)) (Num 0x7) in
  let pcOffset := signExtend (band instr (Num 0x1ff)) (Num 9) in
  let* pc := reg (Num R_PC) in
  let* p := memRead (num_add pc pcOffset) in
  let* v := memRead p in
  set_reg r0 v >>
  updateFlags r0.

Definition abort : M unit := process_exit (-1).

Definition bitwiseAnd (instr : value) : M unit :=
  let r0 := band (shr instr (Num 9)) (Num 0x7) in
  let r1 := band (shr instr (Num 6)) (Num 0x7) in
  let immFlag := band (shr instr (Num 5)) (Num 0x1) in
  (if truthy immFlag then
     let imm5 := signExtend (band instr (Num 0x1F)) (Num 5) in
     let* a := reg r1 in
     set_reg r0 (band a imm5)
   else
     let r2 := band instr (Num 0x7) in
     let* a := reg r1 in
     let* b := reg r2 in
     set_reg r0 (band a b)) >>
  updateFlags r0.

Definition bitwiseNot (instr : value) : M unit :=
  let r0 := band (shr instr (Num 9)) (Num 0x7) in
  let r1 := band (shr instr (Num 6)) (Num 0x7) in
  let* a := reg r1 in
  set_reg r0 (bnot a) >>
  updateFlags r0.

Definition branch (instr : value) : M unit :=
  let pcOffset := signExtend (band instr (Num 0x1ff)) (Num 9) in
  let condFlag := band (shr instr (Num 9)) (Num 0x7) in
  let* cond := reg (Num R_COND) in
  if truthy (band condFlag cond) then
    let* pc := reg (Num R_PC) in
    set_reg (Num R_PC) (num_add pc pcOffset)
  else ret tt.

Definition jump (instr : value) : M unit :=
  let r1 := band (shr instr (Num 6)) (Num 0x7) in
  let* a := reg r1 in
  set_reg (Num R_PC) a.

Definition jumpRegister (instr : value) : M unit :=
  let r1 := band (shr instr (Num 6)) (Num 0x7) in
  let longPCOffset := signExtend (band instr (Num 0x7ff)) (Num 11) in
  let longFlag := band (shr instr (Num 11)) (Num 1) in
  let* pc := reg (Num R_PC) in
  set_reg (Num R_R7) pc >>
  if truthy longFlag then
    let* pc := reg (Num R_PC) in
    set_reg (Num R_PC) (num_add pc longPCOffset)
  else
    let* a := reg r1 in
    set_reg (Num R_PC) a.

Definition load (instr : value) : M unit :=
  let r0 := band (shr instr (Num 9)) (Num 0x7) in
  let pcOffset := signExtend (band instr (Num 0x1ff)) (Num 9) in
  let* pc := reg (Num R_PC) in
  let* v := memRead (num_add pc pcOffset) in
  set_reg r0 v >>
  updateFlags r0.

Definition loadRegister (instr : value) : M unit :=
  let r0 := band (shr instr (Num 9)) (Num 0x7) in
  let r1 := band (shr instr (Num 6)) (Num 0x7) in
  let offset := signExtend (band instr (Num 0x3F)) (Num 6) in
  let* base := reg r1 in
  let* v := memRead (num_add base offset) in
  set_reg r0 v >>
  updateFlags r0.

Definition loadEffectiveAddress (instr : value) : M unit :=
  let r0 := band (shr instr (Num 9)) (Num 0x7) in
  let pcOffset := signExtend (band instr (Num 0x1ff)) (Num 9) in
  let* pc := reg (Num R_PC) in
  set_reg r0 (num_add pc pcOffset) >>
  updateFlags r0.

Definition store (instr : value) : M unit :=
  let r0 := band (shr instr (Num 9)) (Num 0x7) in
  let pcOffset := signExtend (band instr (Num 0x1ff)) (Num 9) in
  let* pc := reg (Num R_PC) in
  let* v := reg r0 in
  memWrite (num_add pc pcOffset) v.

Definition storeIndirect (instr : value) : M unit :=
  let r0 := band (shr instr (Num 9)) (Num 0x7) in
  let pcOffset := signExtend (band instr (Num 0x1ff)) (Num 9) in
  let* pc := reg (Num R_PC) in
  let* p := memRead (num_add pc pcOffset) in
  let* v := reg r0 in
  memWrite p v.

Definition storeRegister (instr : value) : M unit :=
  let r0 := band (shr instr (Num 9)) (Num 0x7) in
  let r1 := band (shr instr (Num 6)) (Num 0x7) in
  let offset := signExtend (band instr (Num 0x3F)) (Num 6) in
  let* base := reg r1 in
  let* v := reg r0 in
  memWrite (num_add base offset) v.

(** ** Trap service routines *)

(** [buf.push(x)].  An array holds at most 2^32 - 1 entries: on an array of
    that length [push] throws a RangeError (invalid array length), which
    nothing in the program catches.  An engine that gives up on a shorter
    array throws the same error; a scan that ends inside memory collects at
    most 131072 entries and comes near neither bound. *)
Definition MAX_ARRAY_LENGTH : Z := 2 ^ 32 - 1.

Definition push (buf : list value) (x : value) : M (list value) :=
  λ s, if Z.of_nat (List.length buf) <? MAX_ARRAY_LENGTH
       then Ret (buf ++ [x]) s
       else Throw s.

(** The scan of [TRAP_PUTS]:
    [while (memory[addr] !== 0) { buf.push(memory[addr]); addr++ }].
    [addr] is a JavaScript number, so [addr++] does not wrap: past 0xFFFF
    every read is [undefined], which is not 0, and the scan is stopped only
    by [push] throwing.  [fuel] bounds the iterations of the model and
    [Diverge] stands for running out of it. *)
Fixpoint puts_loop (fuel : nat) (addr : value) (buf : list value) : M (value * list value) :=
  match fuel with
  | O => never
  | S fuel' =>
      let* c := mem addr in
      if negb (strict_eq c (Num 0)) then
        let* c := mem addr in
        let* buf := push buf c in
        puts_loop fuel' (num_add addr (Num 1)) buf
      else ret (addr, buf)
  end.

(** The scan of [TRAP_PUTSP]: low byte, then the high byte when non-zero. *)
Fixpoint putsp_loop (fuel : nat) (addr : value) (buf : list value) : M (value * list value) :=
  match fuel with
  | O => never
  | S fuel' =>
      let* c := mem addr in
      if negb (strict_eq c (Num 0)) then
        let* c1 := mem addr in
        let char1 := band c1 (Num 0xFF) in
        let* buf := push buf char1 in
        let* c2 := mem addr in
        let char2 := shr c2 (Num 8) in
        let* buf := (if truthy char2 then push buf char2 else ret buf) in
        putsp_loop fuel' (num_add addr (Num 1)) buf
      else ret (addr, buf)
  end.

Definition trapHandler (fuel : nat) (instr : value) : M unit :=
  match band instr (Num 0xFF) with
  | Num 0x20 =>
      let* c := getChar in
      set_reg (Num R_R0) c
  | Num 0x21 =>
      let* c := reg (Num R_R0) in
      putBuf [c]
  | Num 0x22 =>
      let* addr := reg (Num R_R0) in
      let* r := puts_loop fuel addr [] in
      putBuf (snd r)
  | Num 0x23 =>
      console_log "Enter a character: " >>
      let* c := getChar in
      set_reg (Num R_R0) c
  | Num 0x24 =>
      let* addr := reg (Num R_R0) in
      let* r := putsp_loop fuel addr [] in
      putBuf (snd r)
  | Num 0x25 =>
      console_log "HALT" >>
      set_run 0
  | _ => ret tt
  end.

(** ** The fetch, decode, execute loop *)

(** One iteration of the loop of [main]. *)
Definition dispatch (fuel : nat) (instr : value) : M unit :=
  match shr instr (Num 12) with
  | Num 1 => add instr
  | Num 5 => bitwiseAnd instr
  | Num 9 => bitwiseNot instr
  | Num 0 => branch instr
  | Num 12 => jump instr
  | Num 4 => jumpRegister instr
  | Num 2 => load instr
  | Num 10 => loadIndirect instr
  | Num 6 => loadRegister instr
  | Num 14 => loadEffectiveAddress instr
  | Num 3 => store instr
  | Num 11 => storeIndirect instr
  | Num 7 => storeRegister instr
  | Num 15 => trapHandler fuel instr
  | _ => abort
  end.

Definition fetch : M value :=
  let* pc := reg (Num R_PC) in
  let* instr := memRead pc in
  let* pc := reg (Num R_PC) in
  set_reg (Num R_PC) (num_add pc (Num 1)) >>
  ret instr.

Definition step (fuel : nat) : M unit :=
  let* instr := fetch in
  dispatch fuel instr.

(** [while (running) { ... }] *)
Fixpoint run (fuel : nat) : M unit :=
  match fuel with
  | O => never
  | S fuel' =>
      λ s, if truthy (Num (running s)) then (step fuel' >> run fuel') s
           else Ret tt s
  end.

(** ** Image loader *)

Definition byte_val (b : byte) : Z := Z.of_N (Byte.to_N b).

(** [image.readUInt16BE(offset)]: a range error ([None]) unless both bytes
    are inside the buffer. *)
Definition readUInt16BE (image : list byte) (offset : Z) : option Z :=
  match image !! Z.to_nat offset, image !! Z.to_nat (offset + 1) with
  | Some first, Some last => Some (byte_val first * 2 ^ 8 + byte_val last)
  | _, _ => None
  end.

(** [while ((pos + 1) * 2 < image.length) { memory[origin + pos] =
    image.readUInt16BE((pos + 1) * 2); pos++ }] *)
Fixpoint readImage_loop (fuel : nat) (image : list byte) (origin pos : Z) : M unit :=
  match fuel with
  | O => never
  | S fuel' =>
      if (pos + 1) * 2 <? Z.of_nat (List.length image) then
        match readUInt16BE image ((pos + 1) * 2) with
        | None => λ s, Throw s
        | Some w =>
            set_mem (Num (origin + pos)) (Num w) >>
            readImage_loop fuel' image origin (pos + 1)
        end
      else ret tt
  end.

(** [readImage]: the file's content is the argument.  The loop runs at most
    once per byte, so the fuel given here is never used up. *)
Definition readImage (image : list byte) : M unit :=
  match readUInt16BE image 0 with
  | None => λ s, Throw s
  | Some origin => readImage_loop (List.length image) image origin 0
  end.

(** The state the module sets up before [main] runs. *)
Definition boot (h : Host) : state :=
  {| memory := new_Uint16Array;
     registers := ta_set R_COUNT new_Uint16Array (Num R_PC) (Num PC_START);
     running := 1;
     host := h |}.

Definition main (fuel : nat) (image : list byte) : M unit :=
  readImage image >> run fuel.

(** * Vocabulary of the statements *)

(** Two's-complement reading of the low [N] bits of [x]. *)
Definition sext (x N : Z) : Z :=
  x mod 2 ^ N - (if Z.testbit x (N - 1) then 2 ^ N else 0).

(** Observations of a state: register [k] and the memory word at [j]. *)
Definition R (s : state) (k : Z) : value := ta_get R_COUNT (registers s) (Num k).

Definition peek (s : state) (j : Z) : value := ta_get MEMORY_SIZE (memory s) (Num j).

(** What [getChar] does with the next key: it ends the process when the key
    is q or Q and the confirmation is answered yes, and otherwise returns
    the key's character code, having used one request (two for a declined
    confirmation). *)
Definition quits (h : Host) : bool :=
  is_q (keyIn_input h (consumed h)) && keyInYN_answer (advance h) (consumed (advance h)).

Definition after_getChar (h : Host) : Host :=
  if is_q (keyIn_input h (consumed h)) then advance (advance h) else advance h.

(** The flag [updateFlags] derives from a 16-bit word. *)
Definition flag_of (w : Z) : Z :=
  if w =? 0 then FL_ZRO else if Z.testbit w 15 then FL_NEG else FL_POS.

(** What holds of register [k] and COND once flags were set on [k]. *)
Definition flags_set (k : Z) (s : state) : Prop :=
  ∃ w, R s k = Num w ∧ 0 <= w < 65536
       ∧ ((R s R_COND = Num FL_POS ∧ 0 < w < 32768)
          ∨ (R s R_COND = Num FL_ZRO ∧ w = 0)
          ∨ (R s R_COND = Num FL_NEG ∧ Z.testbit w 15 = true)).

(** The destination register field of an instruction word, bits [11:9]. *)
Definition DR (instr : value) : value := band (shr instr (Num 9)) (Num 0x7).



(** A terminal on which no key is ever pressed. *)
Definition quiet_host : Host :=
  {| keyIn_input := λ _, []; keyInYN_answer := λ _, false; consumed := 0%nat; stdout := [] |}.

Definition lea_example : state :=
  set_memory (ta_set MEMORY_SIZE new_Uint16Array (Num 0x3000) (Num 0xE002)) (boot quiet_host).

(** R0 = 0x4000 and the words 'H', 'i', '!', 0 from 0x4000 on. *)
Definition hi_example : state :=
  {| memory :=
       ta_set MEMORY_SIZE
         (ta_set MEMORY_SIZE
            (ta_set MEMORY_SIZE
               (ta_set MEMORY_SIZE new_Uint16Array (Num 0x4000) (Num 72))
               (Num 0x4001) (Num 105))
            (Num 0x4002) (Num 33))
         (Num 0x4003) (Num 0);
     registers := ta_set R_COUNT (registers (boot quiet_host)) (Num R_R0) (Num 0x4000);
     running := 1;
     host := quiet_host |}.

(** A string whose only word is 0x0080. *)
Definition latin1_example : state :=
  {| memory := ta_set MEMORY_SIZE new_Uint16Array (Num 0x4000) (Num 0x80);
     registers := ta_set R_COUNT (registers (boot quiet_host)) (Num R_R0) (Num 0x4000);
     running := 1;
     host := quiet_host |}.

(** A string in the last cell of memory, with a zero word only at address 0. *)
Definition last_cell_example : state :=
  {| memory := ta_set MEMORY_SIZE new_Uint16Array (Num 0xFFFF) (Num 65);
     registers := ta_set R_COUNT (registers (boot quiet_host)) (Num R_R0) (Num 0xFFFF);
     running := 1;
     host := quiet_host |}.

(** The host after a trap: the keyboard script is the same, requests may
    have been used and bytes appended to the output. *)
Definition host_extends (h h' : Host) : Prop :=
  keyIn_input h' = keyIn_input h ∧ keyInYN_answer h' = keyInYN_answer h
  ∧ (consumed h <= consumed h')%nat
  ∧ ∃ bytes, stdout h' = stdout h ++ bytes.

(** What a trap may change: R0 only when [r0] allows it, the running flag
    only when [run] allows it, and the host; never R1..R7, PC, COND or a
    memory cell. *)
Definition trap_frame (r0 run : bool) (s s' : state) : Prop :=
  (∀ k, k ≠ R_R0 → R s' k = R s k)
  ∧ (r0 = false → registers s' = registers s)
  ∧ (run = false → running s' = running s)
  ∧ memory s' = memory s
  ∧ host_extends (host s) (host s').

Definition is_GETC_or_IN (t : Z) : bool := (t =? TRAP_GETC) || (t =? TRAP_IN).

Definition is_HALT (t : Z) : bool := t =? TRAP_HALT.

(** [LDR R0, R1, #-1] (0x607F) at 0x3000, with R1 = 0 and M[0xFFFF] = 0x1234. *)
Definition ldr_example : state :=
  set_memory
    (ta_set MEMORY_SIZE
       (ta_set MEMORY_SIZE new_Uint16Array (Num 0x3000) (Num 0x607F))
       (Num 0xFFFF) (Num 0x1234))
    (boot quiet_host).

(** [STR R0, R1, #1] (0x7041) at 0x3000, with R0 = 0xBEEF and R1 = 0xFFFF. *)
Definition str_example : state :=
  {| memory := ta_set MEMORY_SIZE new_Uint16Array (Num 0x3000) (Num 0x7041);
     registers :=
       ta_set R_COUNT
         (ta_set R_COUNT (registers (boot quiet_host)) (Num R_R0) (Num 0xBEEF))
         (Num R_R1) (Num 0xFFFF);
     running := 1;
     host := quiet_host |}.

(** [LD R0, #-1] (0x21FF) in the last cell, with PC = 0xFFFF. *)
Definition ld_example : state :=
  {| memory := ta_set MEMORY_SIZE new_Uint16Array (Num 0xFFFF) (Num 0x21FF);
     registers := ta_set R_COUNT new_Uint16Array (Num R_PC) (Num 0xFFFF);
     running := 1;
     host := quiet_host |}.

(** The first [n] iterations of the loop of [main] (no trap in them scans
    a string, so they need no fuel). *)
Fixpoint steps (n : nat) : M unit :=
  match n with
  | O => ret tt
  | S n' => step 0 >> steps n'
  end.

(** An object file: the two bytes of the origin, then two bytes per word,
    high byte first. *)
Definition word_of (hi lo : byte) : Z := byte_val hi * 2 ^ 8 + byte_val lo.

Definition image_of (o1 o2 : byte) (payload : list (byte * byte)) : list byte :=
  o1 :: o2 :: flat_map (λ p, [fst p; snd p]) payload.

(** Fields of an instruction word, as the handlers cut them out. *)
Definition BaseR (instr : value) : value := band (shr instr (Num 6)) (Num 0x7).

Definition SR2 (instr : value) : value := band instr (Num 0x7).

Definition imm_flag (instr : value) : value := band (shr instr (Num 5)) (Num 0x1).

Definition imm5 (instr : value) : value := signExtend (band instr (Num 0x1F)) (Num 5).

Definition offset6 (instr : value) : value := signExtend (band instr (Num 0x3F)) (Num 6).

Definition PCoffset9 (instr : value) : value := signExtend (band instr (Num 0x1ff)) (Num 9).

Definition PCoffset11 (instr : value) : value := signExtend (band instr (Num 0x7ff)) (Num 11).

Definition long_flag (instr : value) : value := band (shr instr (Num 11)) (Num 1).

(** The register named by a decoded field. *)
Definition Rf (s : state) (field : value) : value := ta_get R_COUNT (registers s) field.

(** The second operand of ADD and AND: the immediate when bit 5 is set,
    the register SR2 otherwise. *)
Definition operand2 (s : state) (instr : value) : value :=
  if truthy (imm_flag instr) then imm5 instr else Rf s (SR2 instr).

(** The state after [registers[d] = v; updateFlags(d)]. *)
Definition write_result (d : Z) (v : value) (s : state) : state :=
  set_registers
    (ta_set R_COUNT (ta_set R_COUNT (registers s) (Num d) v)
            (Num R_COND) (Num (flag_of (toUint16 v)))) s.

(** Nothing but registers differs between [s] and [s']. *)
Definition only_registers (s s' : state) : Prop :=
  memory s' = memory s ∧ host s' = host s ∧ running s' = running s.

(** The condition bits n, z, p of a branch, bits [11:9]. *)
Definition nzp (instr : value) : value := band (shr instr (Num 9)) (Num 0x7).

(** [sound Q E T c]: whenever [c] returns, exits or throws, the state it
    leaves is related to the one it started from by [Q]; an exit code
    satisfies [E]; and it throws only if [T] holds. *)
Definition sound {A} (Q : state → state → Prop) (E : Z → Prop) (T : Prop) (c : M A) : Prop :=
  ∀ s, match c s with
       | Ret _ s' => Q s s'
       | Exit code s' => E code ∧ Q s s'
       | Throw s' => T ∧ Q s s'
       | Diverge => True
       end.

(** Every cell that was stored to holds a 16-bit word. *)
Definition words16 (a : Uint16Array) : Prop :=
  map_Forall (λ _ v, 0 <= v < 65536) (cells a).

Definition wf_state (s : state) : Prop := words16 (memory s) ∧ words16 (registers s).

(** The host only moves forward and the running flag is only ever cleared. *)
Definition progresses (s s' : state) : Prop :=
  host_extends (host s) (host s') ∧ (running s' = running s ∨ running s' = 0).

(** [TRAP HALT] (0xF025) at 0x3000, the machine about to fetch it. *)
Definition halt_example : state :=
  set_memory (ta_set MEMORY_SIZE new_Uint16Array (Num 0x3000) (Num 0xF025)) (boot quiet_host).

(** A terminal on which every key pressed is the character with code [c],
    and a quit confirmation is always declined. *)
Definition typing_host (c : Z) : Host :=
  {| keyIn_input := λ _, [c]; keyInYN_answer := λ _, false; consumed := 0%nat; stdout := [] |}.

(** The 16-bit word a memory cell holds. *)
Definition word_at (s : state) (j : Z) : Z := toUint16 (peek s j).

(** The characters PUTSP takes from one word: the low byte, then the high
    byte unless it is zero. *)
Definition unpack (w : Z) : list Z :=
  if w / 256 =? 0 then [w mod 256] else [w mod 256; w / 256].

(** R0 = 0x4000 and the packed words 0x6948 ('H', 'i') and 0x0021 ('!'),
    followed by a zero word. *)
Definition packed_example : state :=
  {| memory :=
       ta_set MEMORY_SIZE
         (ta_set MEMORY_SIZE new_Uint16Array (Num 0x4000) (Num 0x6948))
         (Num 0x4001) (Num 0x0021);
     registers := ta_set R_COUNT (registers (boot quiet_host)) (Num R_R0) (Num 0x4000);
     running := 1;
     host := quiet_host |}.

(** * Properties *)

(** ** Integer conversions *)

Lemma wrap32_small z : - 2 ^ 31 <= z < 2 ^ 31 → wrap32 z = z.
Proof.
  intros Hz. unfold wrap32. rewrite Z.mod_small; lia.
Qed.

Lemma wrap32_eqm z : ∃ q, wrap32 z = z - 2 ^ 32 * q.
Proof.
  exists ((z + 2 ^ 31) / 2 ^ 32). unfold wrap32.
  rewrite Z.mod_eq by lia. lia.
Qed.

Lemma wrap32_mod_pow2 z n : 0 <= n <= 32 → wrap32 z mod 2 ^ n = z mod 2 ^ n.
Proof.
  intros Hn. destruct (wrap32_eqm z) as [q ->].
  replace (2 ^ 32) with (2 ^ n * 2 ^ (32 - n)).
  - replace (z - 2 ^ n * 2 ^ (32 - n) * q) with (z + (- (2 ^ (32 - n) * q)) * 2 ^ n) by ring.
    apply Z_mod_plus_full.
  - rewrite <- Z.pow_add_r by lia. f_equal. lia.
Qed.

Lemma pow2_small n : 0 <= n <= 30 → 0 < 2 ^ n < 2 ^ 31.
Proof.
  intros Hn. split.
  - apply Z.pow_pos_nonneg; lia.
  - apply Z.pow_lt_mono_r; lia.
Qed.

Lemma shl_one n : 0 <= n <= 30 → shl (Num 1) (Num n) = Num (2 ^ n).
Proof.
  intros Hn. unfold shl, toInt32.
  rewrite (wrap32_small 1) by lia.
  rewrite (wrap32_small n) by lia.
  rewrite Z.mod_small by lia.
  rewrite Z.shiftl_1_l.
  pose proof (pow2_small n Hn).
  rewrite wrap32_small by lia. reflexivity.
Qed.

(** Flipping bit [k] adds or removes [2^k]. *)
Lemma lxor_pow2 y k :
  0 <= k → Z.lxor y (2 ^ k) = if Z.testbit y k then y - 2 ^ k else y + 2 ^ k.
Proof.
  intros Hk.
  assert (Hflip : ∀ a, Z.testbit a k = false → Z.lxor a (2 ^ k) = a + 2 ^ k).
  { intros a Ha. symmetry. apply Z.add_nocarry_lxor.
    apply Z.bits_inj'. intros i Hi.
    rewrite Z.land_spec, Z.bits_0, Z.pow2_bits_eqb by lia.
    destruct (Z.eqb_spec k i) as [<- | _].
    - rewrite Ha. reflexivity.
    - apply andb_false_r. }
  destruct (Z.testbit y k) eqn:Hy.
  - assert (Hb : Z.testbit (Z.lxor y (2 ^ k)) k = false).
    { rewrite Z.lxor_spec, Hy, Z.pow2_bits_true by lia. reflexivity. }
    specialize (Hflip _ Hb).
    rewrite Z.lxor_assoc, Z.lxor_nilpotent, Z.lxor_0_r in Hflip. lia.
  - apply Hflip, Hy.
Qed.

(** The number [signExtend] returns: the low [N] bits of [x] read as a
    two's-complement integer, negative when bit [N-1] is set. *)
Lemma signExtend_sext x N :
  1 <= N <= 16 → signExtend (Num x) (Num N) = Num (sext x N).
Proof.
  intros HN. unfold signExtend, sext. cbn [num_sub].
  rewrite !shl_one by lia. cbn [num_sub].
  unfold band, bxor. cbn [toInt32 num_sub].
  pose proof (pow2_small N ltac:(lia)) as HpN.
  pose proof (pow2_small (N - 1) ltac:(lia)) as HpN1.
  rewrite (wrap32_small (2 ^ N - 1)) by lia.
  rewrite (wrap32_small (2 ^ (N - 1))) by lia.
  replace (2 ^ N - 1) with (Z.ones N) by (rewrite Z.ones_equiv; lia).
  rewrite Z.land_ones by lia.
  rewrite wrap32_mod_pow2 by lia.
  pose proof (Z.mod_pos_bound x (2 ^ N) ltac:(lia)) as Hy.
  rewrite (wrap32_small (x mod 2 ^ N)) by lia.
  rewrite lxor_pow2 by lia.
  rewrite Z.mod_pow2_bits_low by lia.
  replace (2 ^ N) with (2 * 2 ^ (N - 1)).
  - destruct (Z.testbit x (N - 1)); f_equal; lia.
  - rewrite <- Z.pow_succ_r by lia. f_equal. lia.
Qed.

Lemma sext_range x N :
  1 <= N → - 2 ^ (N - 1) <= sext x N < 2 ^ (N - 1).
Proof.
  intros HN. unfold sext.
  assert (Hp : 2 ^ N = 2 * 2 ^ (N - 1)).
  { rewrite <- Z.pow_succ_r by lia. f_equal. lia. }
  assert (Hpos : 0 < 2 ^ (N - 1)) by (apply Z.pow_pos_nonneg; lia).
  pose proof (Z.mod_pos_bound x (2 ^ N) ltac:(lia)) as Hy.
  destruct (Z.testbit x (N - 1)) eqn:Hb.
  - rewrite <- (Z.mod_pow2_bits_low x N) in Hb by lia.
    rewrite Z.testbit_true in Hb by lia.
    assert (x mod 2 ^ N / 2 ^ (N - 1) = 1) as Hq.
    { assert (0 <= x mod 2 ^ N / 2 ^ (N - 1) < 2).
      { split; [apply Z.div_pos; lia | apply Z.div_lt_upper_bound; lia]. }
      pose proof (Z.mod_pos_bound (x mod 2 ^ N / 2 ^ (N - 1)) 2 ltac:(lia)).
      rewrite Z.mod_small in Hb; lia. }
    pose proof (Z.mul_div_le (x mod 2 ^ N) (2 ^ (N - 1)) Hpos). lia.
  - rewrite <- (Z.mod_pow2_bits_low x N) in Hb by lia.
    rewrite Z.testbit_false in Hb by lia.
    assert (x mod 2 ^ N / 2 ^ (N - 1) = 0) as Hq.
    { assert (0 <= x mod 2 ^ N / 2 ^ (N - 1) < 2).
      { split; [apply Z.div_pos; lia | apply Z.div_lt_upper_bound; lia]. }
      rewrite Z.mod_small in Hb; lia. }
    apply Z.div_small_iff in Hq; lia.
Qed.

(** Bits of the extended number: below [N] those of [x], from [N] on the
    sign bit [N-1] of [x]. *)
Lemma sext_bits x N i :
  1 <= N → 0 <= i →
  Z.testbit (sext x N) i = Z.testbit x (if i <? N then i else N - 1).
Proof.
  intros HN Hi.
  assert (Hpos : 0 < 2 ^ N) by (apply Z.pow_pos_nonneg; lia).
  destruct (Z.ltb_spec i N) as [Hlt | Hge].
  - rewrite <- (Z.mod_pow2_bits_low (sext x N) N i) by lia.
    rewrite <- (Z.mod_pow2_bits_low x N i) by lia.
    f_equal. unfold sext.
    destruct (Z.testbit x (N - 1)).
    + replace (x mod 2 ^ N - 2 ^ N) with (x mod 2 ^ N + (-1) * 2 ^ N) by ring.
      rewrite Z_mod_plus_full. apply Z.mod_mod. lia.
    + rewrite Z.sub_0_r. apply Z.mod_mod. lia.
  - pose proof (sext_range x N HN) as Hr.
    assert (Hmono : 2 ^ (N - 1) < 2 ^ N) by (apply Z.pow_lt_mono_r; lia).
    assert (Hle : 2 ^ N <= 2 ^ i) by (apply Z.pow_le_mono_r; lia).
    pose proof (Z.mod_pos_bound x (2 ^ N) ltac:(lia)) as Hy.
    unfold sext in *.
    destruct (Z.testbit x (N - 1)).
    + apply Z.bits_above_log2_neg; [lia |].
      set (r := x mod 2 ^ N - 2 ^ N) in *.
      destruct (Z.eq_dec (Z.pred (- r)) 0) as [-> | Hnz].
      * simpl. lia.
      * apply Z.log2_lt_pow2; lia.
    + rewrite Z.sub_0_r in *.
      rewrite <- (Z.mod_small (x mod 2 ^ N) (2 ^ i)) by lia.
      apply Z.mod_pow2_bits_high. lia.
Qed.

Lemma band_low_bits v N :
  0 <= N <= 30 → band (Num v) (Num (Z.ones N)) = Num (v mod 2 ^ N).
Proof.
  intros HN. unfold band. cbn [toInt32].
  pose proof (pow2_small N HN).
  rewrite (wrap32_small (Z.ones N)) by (rewrite Z.ones_equiv; lia).
  rewrite Z.land_ones by lia.
  rewrite wrap32_mod_pow2 by lia. reflexivity.
Qed.

(** C4.  For a field width [N] among 5, 6, 9 and 11: when bits [N..15] of a
    16-bit [v] all equal its bit [N-1], [signExtend] of the low [N] bits of
    [v] is [v] again once read as a 16-bit word; and for every [x], bits
    [N..15] of the extended word are all 1 when bit [N-1] of [x] is set and
    all 0 otherwise. *)
Theorem signExtend_roundtrip (N : Z) :
  N = 5 ∨ N = 6 ∨ N = 9 ∨ N = 11 →
  (∀ v, 0 <= v < 65536 →
        (∀ i, N <= i <= 15 → Z.testbit v i = Z.testbit v (N - 1)) →
        toUint16 (signExtend (band (Num v) (Num (Z.ones N))) (Num N)) = v)
  ∧ (∀ x i, N <= i <= 15 →
        Z.testbit (toUint16 (signExtend (Num x) (Num N))) i = Z.testbit x (N - 1)).
Proof.
  intros HN. assert (HN' : 1 <= N <= 16) by lia. split.
  - intros v Hv Hhigh.
    rewrite band_low_bits, signExtend_sext by lia. cbn [toUint16].
    apply Z.bits_inj'. intros i Hi.
    destruct (Z.ltb_spec i 16) as [Hlt | Hge].
    + change 65536 with (2 ^ 16). rewrite Z.mod_pow2_bits_low by lia.
      rewrite sext_bits by lia.
      destruct (Z.ltb_spec i N) as [Hlow | Hup].
      * apply Z.mod_pow2_bits_low. lia.
      * rewrite Z.mod_pow2_bits_low by lia. symmetry. apply Hhigh. lia.
    + change 65536 with (2 ^ 16). rewrite Z.mod_pow2_bits_high by lia.
      symmetry. rewrite <- (Z.mod_small v (2 ^ 16)) by (change (2 ^ 16) with 65536; lia).
      apply Z.mod_pow2_bits_high. lia.
  - intros x i Hi.
    rewrite signExtend_sext by lia. cbn [toUint16].
    change 65536 with (2 ^ 16). rewrite Z.mod_pow2_bits_low by lia.
    rewrite sext_bits by lia.
    destruct (Z.ltb_spec i N); [lia | reflexivity].
Qed.

Lemma signExtend_roundtrip_witness :
  toUint16 (signExtend (band (Num 0xFFF0) (Num (Z.ones 5))) (Num 5)) = 0xFFF0
  ∧ Z.testbit (toUint16 (signExtend (Num 0x1F) (Num 5))) 15 = Z.testbit 0x1F 4.
Proof.
  destruct (signExtend_roundtrip 5 ltac:(left; reflexivity)) as [H1 H2].
  split.
  - apply H1; [lia |].
    intros i Hi.
    assert (i = 5 ∨ i = 6 ∨ i = 7 ∨ i = 8 ∨ i = 9 ∨ i = 10 ∨ i = 11 ∨ i = 12
            ∨ i = 13 ∨ i = 14 ∨ i = 15) as Hcases by lia.
    repeat destruct Hcases as [-> | Hcases]; try subst i; reflexivity.
  - apply H2. lia.
Defined.

(** ** Typed arrays *)

Lemma ta_get_set_eq n a k v :
  valid_index n k = true → ta_get n (ta_set n a (Num k) v) (Num k) = Num (toUint16 v).
Proof.
  intros Hk. unfold ta_get, ta_set. rewrite Hk. cbn [cells].
  rewrite lookup_insert_eq. reflexivity.
Qed.

Lemma ta_get_set_ne n a k j v :
  k ≠ j → ta_get n (ta_set n a (Num k) v) (Num j) = ta_get n a (Num j).
Proof.
  intros Hne. unfold ta_get, ta_set.
  destruct (valid_index n k); [| reflexivity].
  cbn [cells]. rewrite lookup_insert_ne by exact Hne. reflexivity.
Qed.

Lemma ta_get_range n a k z :
  ta_get n a (Num k) = Num z → 0 <= k < n.
Proof.
  unfold ta_get, valid_index.
  destruct (Z.leb_spec 0 k), (Z.ltb_spec k n); cbn; intros; (lia || discriminate).
Qed.

Lemma toUint16_range v : 0 <= toUint16 v < 65536.
Proof.
  destruct v; cbn; try lia. apply Z.mod_pos_bound. lia.
Qed.

(** ** The monad *)

Lemma bind_Ret {A B} (c : M A) (k : A → M B) s a s' :
  c s = Ret a s' → bind c k s = k a s'.
Proof. intros H. unfold bind. rewrite H. reflexivity. Qed.

Lemma bind_assoc {A B C} (c : M A) (k : A → M B) (k' : B → M C) s :
  bind (bind c k) k' s = bind c (λ a, bind (k a) k') s.
Proof. unfold bind. destruct (c s); reflexivity. Qed.

(** ** Keyboard and memory reads *)

Lemma getChar_run s :
  getChar s =
  if quits (host s) then Exit 0 (set_host (after_getChar (host s)) s)
  else Ret (charCodeAt0 (keyIn_input (host s) (consumed (host s))))
           (set_host (after_getChar (host s)) s).
Proof.
  unfold getChar, quits, after_getChar, bind, keyIn, keyInYN, process_exit, ret.
  destruct s as [m r b h]. cbn.
  destruct (is_q (keyIn_input h (consumed h))); cbn; [| reflexivity].
  destruct (keyInYN_answer h (S (consumed h))); reflexivity.
Qed.

Lemma memRead_pure address s :
  address ≠ Num MR_KBSR → memRead address s = Ret (ta_get MEMORY_SIZE (memory s) address) s.
Proof.
  intros Hne. unfold memRead.
  assert (strict_eq address (Num MR_KBSR) = false) as ->.
  { destruct address as [z | |]; cbn; try reflexivity.
    apply Z.eqb_neq. congruence. }
  reflexivity.
Qed.

Lemma memRead_KBSR s :
  memRead (Num MR_KBSR) s =
  if quits (host s) then Exit 0 (set_host (after_getChar (host s)) s)
  else
    let input := charCodeAt0 (keyIn_input (host s) (consumed (host s))) in
    let s1 := set_host (after_getChar (host s)) s in
    let m :=
      if truthy input
      then ta_set MEMORY_SIZE (ta_set MEMORY_SIZE (memory s) (Num MR_KBSR) (Num 0x8000))
                  (Num MR_KBDR) input
      else ta_set MEMORY_SIZE (memory s) (Num MR_KBSR) (Num 0)
    in Ret (ta_get MEMORY_SIZE m (Num MR_KBSR)) (set_memory m s1).
Proof.
  unfold memRead. cbn [strict_eq]. rewrite Z.eqb_refl.
  unfold bind at 1. unfold bind at 1. rewrite getChar_run.
  destruct (quits (host s)); [reflexivity |].
  cbv zeta.
  destruct (truthy (charCodeAt0 _)); reflexivity.
Qed.

(** A memory read never throws and never loops; it ends the process only
    through the quit confirmation of the keyboard poll. *)
Lemma memRead_cases address s :
  (∃ v s', memRead address s = Ret v s'
           ∧ registers s' = registers s ∧ running s' = running s)
  ∨ (∃ s', memRead address s = Exit 0 s' ∧ address = Num MR_KBSR
           ∧ quits (host s) = true).
Proof.
  destruct (decide (address = Num MR_KBSR)) as [-> | Hne].
  - rewrite memRead_KBSR. destruct (quits (host s)) eqn:Hq.
    + right. eauto.
    + left. cbv zeta. do 2 eexists. split; [reflexivity |]. split; reflexivity.
  - left. rewrite memRead_pure by exact Hne. eauto.
Qed.


(** ** Decoding and flags *)

Lemma run_reg {B} i (k : value → M B) s :
  bind (reg i) k s = k (ta_get R_COUNT (registers s) i) s.
Proof. reflexivity. Qed.

Lemma run_set_reg {B} i v (k : unit → M B) s :
  bind (set_reg i v) k s = k tt (set_registers (ta_set R_COUNT (registers s) i v) s).
Proof. reflexivity. Qed.


(** A three-bit field is a register number. *)
Lemma decode_reg a : ∃ k, band a (Num 0x7) = Num k ∧ 0 <= k <= 7.
Proof.
  unfold band. eexists. split; [reflexivity |].
  change (toInt32 (Num 7)) with (Z.ones 3).
  rewrite Z.land_ones by lia.
  pose proof (Z.mod_pos_bound (toInt32 a) (2 ^ 3) ltac:(lia)).
  change (2 ^ 3) with 8 in *. lia.
Qed.

Lemma land_pow2 w k :
  0 <= k → Z.land w (2 ^ k) = if Z.testbit w k then 2 ^ k else 0.
Proof.
  intros Hk. apply Z.bits_inj'. intros i Hi.
  rewrite Z.land_spec, Z.pow2_bits_eqb by lia.
  destruct (Z.eqb_spec k i) as [<- | Hne].
  - destruct (Z.testbit w k); cbn.
    + rewrite Z.pow2_bits_true by lia. reflexivity.
    + rewrite Z.bits_0. reflexivity.
  - rewrite andb_false_r.
    destruct (Z.testbit w k).
    + rewrite Z.pow2_bits_false by lia. reflexivity.
    + rewrite Z.bits_0. reflexivity.
Qed.

Lemma sign_bit_test w :
  0 <= w < 65536 → truthy (band (Num w) SIGN_BIT) = Z.testbit w 15.
Proof.
  intros Hw. unfold SIGN_BIT. rewrite shl_one by lia.
  unfold band. cbn [toInt32].
  rewrite (wrap32_small w) by lia.
  rewrite (wrap32_small (2 ^ 15)) by lia.
  rewrite land_pow2 by lia.
  destruct (Z.testbit w 15); reflexivity.
Qed.

Lemma bit15_clear w : 0 <= w < 65536 → Z.testbit w 15 = false → w < 32768.
Proof.
  intros Hw Hb. rewrite Z.testbit_false in Hb by lia.
  change (2 ^ 15) with 32768 in Hb.
  Z.div_mod_to_equations. lia.
Qed.

Lemma updateFlags_run s k w :
  R s k = Num w → 0 <= w < 65536 →
  updateFlags (Num k) s
  = Ret tt (set_registers (ta_set R_COUNT (registers s) (Num R_COND) (Num (flag_of w))) s).
Proof.
  intros Hk Hw. unfold updateFlags, R in *.
  rewrite run_reg, Hk. cbn [strict_eq]. unfold flag_of.
  destruct (w =? 0); [reflexivity |].
  rewrite run_reg, Hk, sign_bit_test by exact Hw.
  destruct (Z.testbit w 15); reflexivity.
Qed.

(** The tail shared by every flag-setting handler:
    [registers[r0] = v; updateFlags(r0)]. *)
Lemma write_flags k v s :
  0 <= k <= 7 →
  (set_reg (Num k) v >> updateFlags (Num k)) s
  = Ret tt (set_registers
              (ta_set R_COUNT (ta_set R_COUNT (registers s) (Num k) v)
                      (Num R_COND) (Num (flag_of (toUint16 v)))) s).
Proof.
  intros Hk. rewrite run_set_reg.
  erewrite updateFlags_run; [reflexivity | | apply toUint16_range].
  unfold R. cbn [registers set_registers].
  apply ta_get_set_eq. unfold valid_index, R_COUNT.
  destruct (Z.leb_spec 0 k), (Z.ltb_spec k 10); cbn; (reflexivity || lia).
Qed.

Lemma flags_set_after k v s :
  0 <= k <= 7 →
  flags_set k (set_registers
                 (ta_set R_COUNT (ta_set R_COUNT (registers s) (Num k) v)
                         (Num R_COND) (Num (flag_of (toUint16 v)))) s).
Proof.
  intros Hk. exists (toUint16 v).
  pose proof (toUint16_range v) as Hw.
  unfold R. cbn [registers set_registers].
  assert (Hvalid : valid_index R_COUNT k = true).
  { unfold valid_index, R_COUNT.
    destruct (Z.leb_spec 0 k), (Z.ltb_spec k 10); cbn; (reflexivity || lia). }
  rewrite ta_get_set_ne by (unfold R_COND; lia).
  rewrite ta_get_set_eq by exact Hvalid.
  rewrite ta_get_set_eq by reflexivity.
  split; [reflexivity |]. split; [exact Hw |].
  unfold flag_of.
  destruct (Z.eqb_spec (toUint16 v) 0) as [Hz | Hnz].
  - right; left. split; [reflexivity | exact Hz].
  - destruct (Z.testbit (toUint16 v) 15) eqn:Hb.
    + right; right. split; reflexivity.
    + left. split; [reflexivity |].
      pose proof (bit15_clear _ Hw Hb). lia.
Qed.





(** ** LEA *)

Lemma band_ones a n :
  0 <= n <= 30 →
  band a (Num (Z.ones n)) = Num (toInt32 a mod 2 ^ n) ∧ 0 <= toInt32 a mod 2 ^ n < 2 ^ n.
Proof.
  intros Hn. pose proof (pow2_small n Hn) as Hp. split.
  - unfold band. cbn [toInt32].
    rewrite (wrap32_small (Z.ones n)) by (rewrite Z.ones_equiv; lia).
    rewrite Z.land_ones by lia. reflexivity.
  - apply Z.mod_pos_bound. lia.
Qed.

(** C7.  An LEA fetched from address [A] (the word [instr] read at PC = [A],
    opcode 14) with 9-bit offset field [off] leaves in its destination
    register (A + 1 + sext(off, 9)) mod 2^16: the handler reads PC after the
    fetch has incremented it, so the base is the address of the following
    instruction.  The flags are then set on that register. *)
Theorem lea_uses_incremented_pc (fuel : nat) (s s1 : state) (A : Z) (instr : value) :
  R s R_PC = Num A →
  memRead (Num A) s = Ret instr s1 →
  shr instr (Num 12) = Num OP_LEA →
  ∃ k off s2,
    DR instr = Num k ∧ 0 <= k <= 7
    ∧ band instr (Num 0x1ff) = Num off ∧ 0 <= off < 512
    ∧ step fuel s = Ret tt s2
    ∧ R s2 k = Num ((A + 1 + sext off 9) mod 65536)
    ∧ R s2 R_PC = Num ((A + 1) mod 65536)
    ∧ flags_set k s2
    ∧ memory s2 = memory s1 ∧ host s2 = host s1 ∧ running s2 = running s1.
Proof.
  intros HPC Hfetch Hop.
  destruct (decode_reg (shr instr (Num 9))) as (k & Hk & Hrange).
  destruct (band_ones instr 9 ltac:(lia)) as [Hoff Hoffr].
  change (Z.ones 9) with 511 in Hoff. change (2 ^ 9) with 512 in *.
  set (off := toInt32 instr mod 512) in *.
  assert (Hregs : registers s1 = registers s).
  { destruct (memRead_cases (Num A) s) as [(v & s' & Hrun & Hr & _) | (s' & Hrun & _)];
      rewrite Hrun in Hfetch; [| discriminate].
    injection Hfetch as _ <-. exact Hr. }
  exists k, off.
  eexists. split; [exact Hk |]. split; [exact Hrange |].
  split; [exact Hoff |]. split; [exact Hoffr |].
  unfold step, fetch. rewrite !bind_assoc, run_reg.
  unfold R in HPC. rewrite HPC.
  rewrite bind_assoc, (bind_Ret _ _ _ _ _ Hfetch).
  rewrite bind_assoc, run_reg, Hregs, HPC.
  rewrite bind_assoc, run_set_reg.
  unfold ret at 1. unfold bind at 1.
  unfold dispatch. rewrite Hop. unfold OP_LEA. cbv iota beta.
  unfold loadEffectiveAddress. rewrite Hk, Hoff, run_reg.
  cbn [registers set_registers].
  rewrite ta_get_set_eq by reflexivity.
  rewrite signExtend_sext by lia. cbn [num_add toUint16].
  rewrite write_flags by exact Hrange.
  split; [reflexivity |].
  split; [| split; [| split; [apply flags_set_after; exact Hrange |]]].
  - unfold R. cbn [registers set_registers].
    rewrite ta_get_set_ne by (unfold R_COND; lia).
    rewrite ta_get_set_eq
      by (unfold valid_index, R_COUNT;
          destruct (Z.leb_spec 0 k), (Z.ltb_spec k 10); cbn; (reflexivity || lia)).
    cbn [toUint16]. f_equal.
    rewrite Zplus_mod_idemp_l. f_equal; lia.
  - unfold R. cbn [registers set_registers].
    rewrite ta_get_set_ne by (unfold R_COND, R_PC; lia).
    rewrite ta_get_set_ne by (unfold R_PC; lia).
    rewrite ta_get_set_eq by reflexivity. reflexivity.
  - repeat split; reflexivity.
Qed.

Lemma lea_uses_incremented_pc_witness :
  ∃ k off s2,
    DR (Num 0xE002) = Num k ∧ 0 <= k <= 7
    ∧ band (Num 0xE002) (Num 0x1ff) = Num off ∧ 0 <= off < 512
    ∧ step 0 lea_example = Ret tt s2
    ∧ R s2 k = Num ((0x3000 + 1 + sext off 9) mod 65536)
    ∧ R s2 R_PC = Num ((0x3000 + 1) mod 65536)
    ∧ flags_set k s2
    ∧ memory s2 = memory lea_example ∧ host s2 = host lea_example
    ∧ running s2 = running lea_example.
Proof.
  apply (lea_uses_incremented_pc 0 lea_example lea_example 0x3000 (Num 0xE002)).
  - vm_compute. reflexivity.
  - vm_compute. reflexivity.
  - vm_compute. reflexivity.
Defined.

(** ** The PUTS scan *)

Lemma MAX_ARRAY_LENGTH_eq : MAX_ARRAY_LENGTH = 4294967295.
Proof. reflexivity. Qed.

Lemma push_fits buf x s :
  Z.of_nat (length buf) < MAX_ARRAY_LENGTH → push buf x s = Ret (buf ++ [x]) s.
Proof.
  intros Hlen. unfold push.
  destruct (Z.ltb_spec (Z.of_nat (length buf)) MAX_ARRAY_LENGTH); [reflexivity | lia].
Qed.

Lemma push_full buf x s :
  MAX_ARRAY_LENGTH <= Z.of_nat (length buf) → push buf x s = Throw s.
Proof.
  intros Hlen. unfold push.
  destruct (Z.ltb_spec (Z.of_nat (length buf)) MAX_ARRAY_LENGTH); [lia | reflexivity].
Qed.

Lemma push_cases buf x s :
  push buf x s = Ret (buf ++ [x]) s ∨ push buf x s = Throw s.
Proof.
  unfold push. destruct (_ <? _); [left | right]; reflexivity.
Qed.

Lemma puts_loop_unfold fuel a buf s :
  puts_loop (S fuel) a buf s
  = if negb (strict_eq (ta_get MEMORY_SIZE (memory s) a) (Num 0))
    then bind (push buf (ta_get MEMORY_SIZE (memory s) a))
              (puts_loop fuel (num_add a (Num 1))) s
    else Ret (a, buf) s.
Proof.
  cbn [puts_loop]. unfold bind at 1. unfold mem at 1.
  destruct (negb _); reflexivity.
Qed.

Lemma not_zero_word v : v ≠ Num 0 → negb (strict_eq v (Num 0)) = true.
Proof.
  intros Hv. destruct v as [z | |]; cbn; try reflexivity.
  destruct (Z.eqb_spec z 0); [congruence | reflexivity].
Qed.

(** Past 0xFFFF no read gives 0. *)
Lemma no_zero_word_above s a :
  (∀ j, a <= j <= 0xFFFF → peek s j ≠ Num 0) → peek s a ≠ Num 0.
Proof.
  intros Hnz. destruct (Z.le_gt_cases a 0xFFFF) as [Hle | Hgt].
  - apply Hnz. lia.
  - intros Hzero. apply ta_get_range in Hzero. unfold MEMORY_SIZE in Hzero. lia.
Qed.

(** The scan does not change the state and does not end the process: it
    returns, it throws from [push], or the model runs out of fuel. *)
Lemma puts_loop_cases fuel :
  ∀ a buf s,
    puts_loop fuel a buf s = Diverge ∨ puts_loop fuel a buf s = Throw s
    ∨ ∃ r, puts_loop fuel a buf s = Ret r s.
Proof.
  induction fuel as [| fuel IH]; intros a buf s.
  - left. reflexivity.
  - rewrite puts_loop_unfold. destruct (negb _); [| right; right; eauto].
    unfold bind.
    destruct (push_cases buf (ta_get MEMORY_SIZE (memory s) a) s) as [-> | ->];
      [apply IH | right; left; reflexivity].
Qed.

(** With a zero word [n] cells after [a] and none before, the scan stops
    there, having collected the [n] words in between, as long as the array
    can hold them. *)
Lemma puts_loop_scan (n : nat) :
  ∀ a buf s (fuel : nat),
    (∀ j, a <= j < a + Z.of_nat n → peek s j ≠ Num 0) →
    peek s (a + Z.of_nat n) = Num 0 →
    Z.of_nat (length buf) + Z.of_nat n <= MAX_ARRAY_LENGTH →
    (n < fuel)%nat →
    puts_loop fuel (Num a) buf s
    = Ret (Num (a + Z.of_nat n), buf ++ map (peek s) (seqZ a (Z.of_nat n))) s.
Proof.
  induction n as [| n IH]; intros a buf s fuel Hnz Hz Hlen Hfuel;
    (destruct fuel as [| fuel]; [lia |]); rewrite puts_loop_unfold.
  - rewrite Z.add_0_r in *. unfold peek in Hz. rewrite Hz. cbn.
    rewrite app_nil_r. reflexivity.
  - rewrite not_zero_word by (apply Hnz; lia).
    unfold bind. rewrite push_fits by lia.
    cbn [num_add]. rewrite (IH (a + 1)).
    + rewrite (seqZ_cons a) by lia. cbn [map]. rewrite <- app_assoc. cbn [app].
      replace (Z.succ a) with (a + 1) by lia.
      replace (Z.pred (Z.of_nat (S n))) with (Z.of_nat n) by lia.
      replace (a + Z.of_nat (S n)) with (a + 1 + Z.of_nat n) by lia.
      reflexivity.
    + intros j Hj. apply Hnz. lia.
    + rewrite <- Hz. f_equal. lia.
    + rewrite length_app. cbn [length]. lia.
    + lia.
Qed.

(** A scan that returns has met a zero word at or after its start. *)
Lemma puts_loop_returns fuel :
  ∀ a buf s r s',
    puts_loop fuel (Num a) buf s = Ret r s' →
    ∃ z, a <= z <= 0xFFFF ∧ peek s z = Num 0.
Proof.
  induction fuel as [| fuel IH]; intros a buf s r s' Hrun; [discriminate |].
  rewrite puts_loop_unfold in Hrun.
  destruct (strict_eq (ta_get MEMORY_SIZE (memory s) (Num a)) (Num 0)) eqn:Hz; cbn [negb] in Hrun.
  - exists a.
    destruct (ta_get MEMORY_SIZE (memory s) (Num a)) as [w | |] eqn:Hw; try discriminate.
    cbn in Hz. apply Z.eqb_eq in Hz. subst w.
    pose proof (ta_get_range _ _ _ _ Hw) as Hr. unfold MEMORY_SIZE in Hr.
    split; [lia | exact Hw].
  - unfold bind in Hrun.
    destruct (push_cases buf (ta_get MEMORY_SIZE (memory s) (Num a)) s) as [Hp | Hp];
      rewrite Hp in Hrun; [| discriminate].
    cbn [num_add] in Hrun. apply IH in Hrun. destruct Hrun as (z & Hzr & Hzero).
    exists z. split; [lia | exact Hzero].
Qed.

(** Without a zero word up to 0xFFFF the scan goes on, past the end of
    memory, until the array is full: then [push] throws. *)
Lemma puts_loop_overflow (k : nat) :
  ∀ (fuel : nat) a buf s,
    (∀ j, a <= j <= 0xFFFF → peek s j ≠ Num 0) →
    MAX_ARRAY_LENGTH <= Z.of_nat (length buf) + Z.of_nat k →
    (k < fuel)%nat →
    puts_loop fuel (Num a) buf s = Throw s.
Proof.
  induction k as [| k IH]; intros fuel a buf s Hnz Hlen Hfuel;
    (destruct fuel as [| fuel]; [lia |]); rewrite puts_loop_unfold;
    rewrite not_zero_word by (apply no_zero_word_above; exact Hnz); unfold bind.
  - rewrite push_full by lia. reflexivity.
  - destruct (Z.lt_ge_cases (Z.of_nat (length buf)) MAX_ARRAY_LENGTH) as [Hlt | Hge].
    + rewrite push_fits by exact Hlt. cbn [num_add]. apply IH.
      * intros j Hj. apply Hnz. lia.
      * rewrite length_app. cbn [length]. lia.
      * lia.
    + rewrite push_full by exact Hge. reflexivity.
Qed.

(** A scan with a zero word ahead, near enough for the array to hold the
    words before it, does not throw. *)
Lemma puts_loop_no_throw fuel :
  ∀ a z buf s s',
    a <= z → peek s z = Num 0 →
    Z.of_nat (length buf) + (z - a) <= MAX_ARRAY_LENGTH →
    puts_loop fuel (Num a) buf s ≠ Throw s'.
Proof.
  induction fuel as [| fuel IH]; intros a z buf s s' Haz Hzero Hlen; [discriminate |].
  rewrite puts_loop_unfold.
  destruct (strict_eq (ta_get MEMORY_SIZE (memory s) (Num a)) (Num 0)) eqn:Hz;
    cbn [negb]; [discriminate |].
  assert (a ≠ z) as Hne.
  { intros ->. unfold peek in Hzero. rewrite Hzero in Hz. discriminate. }
  unfold bind. rewrite push_fits by lia. cbn [num_add].
  apply (IH (a + 1) z); [lia | exact Hzero |].
  rewrite length_app. cbn [length]. lia.
Qed.

(** The first zero word at or after [a], when there is one. *)
Lemma first_zero_word s (n : nat) :
  ∀ a, peek s (a + Z.of_nat n) = Num 0 →
       ∃ m : nat, (m <= n)%nat ∧ peek s (a + Z.of_nat m) = Num 0
                  ∧ ∀ j, a <= j < a + Z.of_nat m → peek s j ≠ Num 0.
Proof.
  induction n as [| n IH]; intros a Hz.
  - exists 0%nat. split; [lia |]. split; [exact Hz |]. intros j Hj. lia.
  - destruct (decide (peek s a = Num 0)) as [Ha | Ha].
    + exists 0%nat. split; [lia |]. split; [rewrite Z.add_0_r; exact Ha |].
      intros j Hj. lia.
    + destruct (IH (a + 1)) as (m & Hm & Hzm & Hbefore).
      { rewrite <- Hz. f_equal. lia. }
      exists (S m). split; [lia |]. split.
      * rewrite <- Hzm. f_equal. lia.
      * intros j Hj. destruct (decide (j = a)) as [-> | Hne]; [exact Ha |].
        apply Hbefore. lia.
Qed.

Lemma trap_puts_run fuel instr s a :
  band instr (Num 0xFF) = Num TRAP_PUTS →
  R s R_R0 = Num a →
  trapHandler fuel instr s = bind (puts_loop fuel (Num a) []) (λ r, putBuf (snd r)) s.
Proof.
  intros Hvec HR0. unfold trapHandler. rewrite Hvec. unfold TRAP_PUTS. cbv iota beta.
  rewrite run_reg. unfold R, R_R0 in HR0. unfold R_R0. rewrite HR0. reflexivity.
Qed.

(** The scan from R0 = [a] up to the first zero word at [z]. *)
Lemma puts_scan_first_zero (s : state) (a z : Z) (fuel : nat) :
  0 <= a →
  a <= z <= 0xFFFF →
  peek s z = Num 0 →
  (∀ j, a <= j < z → peek s j ≠ Num 0) →
  (Z.to_nat (z - a) < fuel)%nat →
  puts_loop fuel (Num a) [] s = Ret (Num z, map (peek s) (seqZ a (z - a))) s.
Proof.
  intros Ha Hz Hzero Hbefore Hfuel.
  pose proof (puts_loop_scan (Z.to_nat (z - a)) a [] s fuel) as Hrun.
  rewrite Z2Nat.id in Hrun by lia.
  replace (a + (z - a)) with z in Hrun by lia.
  apply Hrun; try assumption.
  cbn [length]. rewrite MAX_ARRAY_LENGTH_eq. lia.
Qed.

(** Without a zero word from R0 up to 0xFFFF the trap does not return,
    whatever the fuel. *)
Lemma puts_trap_never_returns (s : state) (instr : value) (a : Z) :
  band instr (Num 0xFF) = Num TRAP_PUTS →
  R s R_R0 = Num a →
  (∀ z, a <= z <= 0xFFFF → peek s z ≠ Num 0) →
  ∀ fuel, trapHandler fuel instr s = Diverge ∨ trapHandler fuel instr s = Throw s.
Proof.
  intros Hvec HR0 Hnone fuel.
  rewrite (trap_puts_run fuel instr s a Hvec HR0). unfold bind.
  destruct (puts_loop_cases fuel (Num a) [] s) as [-> | [-> | [r Hret]]]; [auto | auto |].
  destruct (puts_loop_returns _ _ _ _ _ _ Hret) as (z & Hz & Hzero).
  exfalso. exact (Hnone z Hz Hzero).
Qed.

(** It ends when [push] throws on the full array, the state as it was. *)
Lemma puts_trap_throws (s : state) (instr : value) (a : Z) :
  band instr (Num 0xFF) = Num TRAP_PUTS →
  R s R_R0 = Num a →
  (∀ z, a <= z <= 0xFFFF → peek s z ≠ Num 0) →
  ∀ fuel : nat, (Z.to_nat MAX_ARRAY_LENGTH < fuel)%nat →
                trapHandler fuel instr s = Throw s.
Proof.
  intros Hvec HR0 Hnone fuel Hfuel.
  rewrite (trap_puts_run fuel instr s a Hvec HR0). unfold bind.
  rewrite (puts_loop_overflow (Z.to_nat MAX_ARRAY_LENGTH)); [reflexivity | exact Hnone | | exact Hfuel].
  rewrite Z2Nat.id by (rewrite MAX_ARRAY_LENGTH_eq; lia).
  change (Z.of_nat (length (@nil value))) with 0. lia.
Qed.

(** With a zero word from R0 >= 0 up to 0xFFFF the trap does not throw. *)
Lemma puts_trap_no_throw (s : state) (instr : value) (a z : Z) :
  band instr (Num 0xFF) = Num TRAP_PUTS →
  R s R_R0 = Num a →
  0 <= a → a <= z <= 0xFFFF → peek s z = Num 0 →
  ∀ fuel s', trapHandler fuel instr s ≠ Throw s'.
Proof.
  intros Hvec HR0 Ha Hz Hzero fuel s'.
  rewrite (trap_puts_run fuel instr s a Hvec HR0). unfold bind.
  destruct (puts_loop fuel (Num a) [] s) as [r s1 | | s1 |] eqn:Hloop; try discriminate.
  exfalso. apply (puts_loop_no_throw fuel a z [] s s1); try assumption; [lia |].
  cbn [length]. rewrite MAX_ARRAY_LENGTH_eq. lia.
Qed.

(** C10 (amended).  The PUTS trap returns exactly when memory holds a zero
    word at some address from R0 up to 0xFFFF: the scan then stops at the
    least such address [z] after collecting the words M[R0 .. z-1].  The end
    of the address space does not stop the scan.  But reading a zero word is
    not all that stops it: when there is none up to 0xFFFF the scan runs on
    past the end of memory, where every read is [undefined], until the array
    is full; there [buf.push] throws, the trap does not return and the state
    is as it was.  The trap throws in no other case. *)
Theorem puts_returns_iff_zero_word (s : state) (instr : value) (a : Z) :
  band instr (Num 0xFF) = Num TRAP_PUTS →
  R s R_R0 = Num a →
  0 <= a →
  ((∃ fuel s', trapHandler fuel instr s = Ret tt s')
   ↔ (∃ z, a <= z <= 0xFFFF ∧ peek s z = Num 0))
  ∧ (∀ z, a <= z <= 0xFFFF → peek s z = Num 0 →
          (∀ j, a <= j < z → peek s j ≠ Num 0) →
          ∀ fuel, (Z.to_nat (z - a) < fuel)%nat →
                  puts_loop fuel (Num a) [] s
                  = Ret (Num z, map (peek s) (seqZ a (z - a))) s
                  ∧ ∃ s', trapHandler fuel instr s = Ret tt s')
  ∧ ((∃ fuel s', trapHandler fuel instr s = Throw s')
     ↔ (∀ z, a <= z <= 0xFFFF → peek s z ≠ Num 0))
  ∧ ((∀ z, a <= z <= 0xFFFF → peek s z ≠ Num 0) →
     ∀ fuel, trapHandler fuel instr s = Diverge ∨ trapHandler fuel instr s = Throw s).
Proof.
  intros Hvec HR0 Ha.
  assert (Hscan : ∀ z, a <= z <= 0xFFFF → peek s z = Num 0 →
          (∀ j, a <= j < z → peek s j ≠ Num 0) →
          ∀ fuel, (Z.to_nat (z - a) < fuel)%nat →
                  puts_loop fuel (Num a) [] s
                  = Ret (Num z, map (peek s) (seqZ a (z - a))) s
                  ∧ ∃ s', trapHandler fuel instr s = Ret tt s').
  { intros z Hz Hzero Hbefore fuel Hfuel.
    pose proof (puts_scan_first_zero s a z fuel Ha Hz Hzero Hbefore Hfuel) as Hrun.
    split; [exact Hrun |].
    rewrite (trap_puts_run fuel instr s a Hvec HR0).
    rewrite (bind_Ret _ _ _ _ _ Hrun). eexists. reflexivity. }
  split; [| split; [exact Hscan | split]].
  - split.
    + intros (fuel & s' & Hrun).
      rewrite (trap_puts_run fuel instr s a Hvec HR0) in Hrun.
      unfold bind in Hrun.
      destruct (puts_loop fuel (Num a) [] s) as [r s1 | | |] eqn:Hloop; try discriminate.
      eapply puts_loop_returns. exact Hloop.
    + intros (z & Hz & Hzero).
      destruct (first_zero_word s (Z.to_nat (z - a)) a) as (m & Hm & Hzm & Hbefore).
      { rewrite Z2Nat.id by lia. rewrite <- Hzero. f_equal. lia. }
      destruct (Hscan (a + Z.of_nat m) ltac:(lia) Hzm Hbefore (S m)) as [_ [s' Hs']].
      { lia. }
      exists (S m), s'. exact Hs'.
  - split.
    + intros (fuel & s' & Hthrow) z Hz Hzero.
      exact (puts_trap_no_throw s instr a z Hvec HR0 Ha Hz Hzero fuel s' Hthrow).
    + intros Hnone. exists (S (Z.to_nat MAX_ARRAY_LENGTH)), s.
      apply (puts_trap_throws s instr a Hvec HR0 Hnone). apply Nat.lt_succ_diag_r.
  - apply (puts_trap_never_returns s instr a Hvec HR0).
Qed.

Lemma puts_returns_iff_zero_word_witness :
  ((∃ fuel s', trapHandler fuel (Num 0xF022) hi_example = Ret tt s')
   ↔ (∃ z, 0x4000 <= z <= 0xFFFF ∧ peek hi_example z = Num 0))
  ∧ (∀ z, 0x4000 <= z <= 0xFFFF → peek hi_example z = Num 0 →
          (∀ j, 0x4000 <= j < z → peek hi_example j ≠ Num 0) →
          ∀ fuel, (Z.to_nat (z - 0x4000) < fuel)%nat →
                  puts_loop fuel (Num 0x4000) [] hi_example
                  = Ret (Num z, map (peek hi_example) (seqZ 0x4000 (z - 0x4000))) hi_example
                  ∧ ∃ s', trapHandler fuel (Num 0xF022) hi_example = Ret tt s')
  ∧ ((∃ fuel s', trapHandler fuel (Num 0xF022) hi_example = Throw s')
     ↔ (∀ z, 0x4000 <= z <= 0xFFFF → peek hi_example z ≠ Num 0))
  ∧ ((∀ z, 0x4000 <= z <= 0xFFFF → peek hi_example z ≠ Num 0) →
     ∀ fuel, trapHandler fuel (Num 0xF022) hi_example = Diverge
             ∨ trapHandler fuel (Num 0xF022) hi_example = Throw hi_example).
Proof.
  apply (puts_returns_iff_zero_word hi_example (Num 0xF022) 0x4000).
  - vm_compute. reflexivity.
  - vm_compute. reflexivity.
  - lia.
Defined.

(** The claim as stated fails where memory holds no zero word from R0 up
    to 0xFFFF: reading a zero word is not the only thing that stops the
    scan.  With R0 = 0xFFFF and M[0xFFFF] = 65 the scan leaves memory, fills
    the array with [undefined] and is stopped by [buf.push] throwing. *)
Lemma puts_stopped_by_array_bound_counterexample :
  R last_cell_example R_R0 = Num 0xFFFF
  ∧ (∀ z, 0xFFFF <= z <= 0xFFFF → peek last_cell_example z ≠ Num 0)
  ∧ ∃ fuel, trapHandler fuel (Num 0xF022) last_cell_example = Throw last_cell_example.
Proof.
  assert (Hnone : ∀ z, 0xFFFF <= z <= 0xFFFF → peek last_cell_example z ≠ Num 0).
  { intros z Hz. assert (z = 0xFFFF) as -> by lia. vm_compute. discriminate. }
  split; [vm_compute; reflexivity |]. split; [exact Hnone |].
  exists (S (Z.to_nat MAX_ARRAY_LENGTH)).
  apply (puts_trap_throws last_cell_example (Num 0xF022) 0xFFFF);
    [vm_compute; reflexivity | vm_compute; reflexivity | exact Hnone |].
  apply Nat.lt_succ_diag_r.
Qed.

(** ** Output of PUTS *)

Lemma toUint8_range v : 0 <= toUint8 v < 256.
Proof.
  destruct v; cbn; try lia. apply Z.mod_pos_bound. lia.
Qed.

(** ASCII bytes pass through the decoder and the encoder unchanged. *)
Lemma utf8_ascii_roundtrip (bytes : list Z) :
  Forall (λ b, 0 <= b < 0x80) bytes →
  Utf8.encode (Utf8.decode bytes) = bytes.
Proof.
  unfold Utf8.decode.
  induction 1 as [| b rest Hb _ IH]; [reflexivity |].
  cbn [Utf8.decode_from]. unfold Utf8.lead, Utf8.within.
  destruct (Z.leb_spec 0 b); [| lia].
  destruct (Z.leb_spec b 0x7F); [| lia].
  cbn [andb app]. unfold Utf8.encode in *. cbn [flat_map].
  rewrite IH. unfold Utf8.encode1.
  destruct (Z.ltb_spec b 0x80); [reflexivity | lia].
Qed.

(** C9 (amended).  When a zero word lies at some address from R0 up to
    0xFFFF, with [z] the first one, PUTS writes to the host the UTF-8
    re-encoding of the low 8 bits of the words M[R0], ..., M[z-1], decoded
    as UTF-8, in order; the zero word and the high bytes are not written.
    When those low bytes are all below 0x80 the output is exactly these
    bytes.  Registers, memory and the running flag are unchanged. *)
Theorem puts_emits_low_bytes (fuel : nat) (s : state) (instr : value) (a z : Z) :
  band instr (Num 0xFF) = Num TRAP_PUTS →
  R s R_R0 = Num a →
  0 <= a <= z → z <= 0xFFFF →
  peek s z = Num 0 →
  (∀ j, a <= j < z → peek s j ≠ Num 0) →
  (Z.to_nat (z - a) < fuel)%nat →
  let low := map (λ j, toUint8 (peek s j)) (seqZ a (z - a)) in
  ∃ s', trapHandler fuel instr s = Ret tt s'
        ∧ stdout (host s') = stdout (host s) ++ Utf8.encode (Utf8.decode low)
        ∧ (Forall (λ b, b < 0x80) low → stdout (host s') = stdout (host s) ++ low)
        ∧ registers s' = registers s ∧ memory s' = memory s
        ∧ running s' = running s.
Proof.
  intros Hvec HR0 Ha Hz Hzero Hbefore Hfuel low.
  pose proof (puts_scan_first_zero s a z fuel ltac:(lia) ltac:(lia) Hzero Hbefore Hfuel)
    as Hrun.
  rewrite (trap_puts_run fuel instr s a Hvec HR0).
  rewrite (bind_Ret _ _ _ _ _ Hrun). cbn [snd].
  unfold putBuf, stdout_write. eexists. split; [reflexivity |].
  cbn [host set_host stdout emit registers memory running].
  rewrite map_map. fold low.
  split; [reflexivity |]. split; [| repeat split; reflexivity].
  intros Hascii. rewrite utf8_ascii_roundtrip; [reflexivity |].
  apply List.Forall_forall. intros b Hin.
  rewrite List.Forall_forall in Hascii. specialize (Hascii b Hin).
  unfold low in Hin. apply in_map_iff in Hin. destruct Hin as (j & <- & _).
  pose proof (toUint8_range (peek s j)). lia.
Qed.

Lemma puts_emits_low_bytes_witness :
  ∃ s', trapHandler 4 (Num 0xF022) hi_example = Ret tt s'
        ∧ stdout (host s') = bytes_of_string "Hi!"
        ∧ registers s' = registers hi_example ∧ memory s' = memory hi_example.
Proof.
  destruct (puts_emits_low_bytes 4 hi_example (Num 0xF022) 0x4000 0x4003)
    as (s' & Hrun & _ & Hout & Hregs & Hmem & _).
  - vm_compute. reflexivity.
  - vm_compute. reflexivity.
  - lia.
  - lia.
  - vm_compute. reflexivity.
  - intros j Hj.
    assert (j = 0x4000 ∨ j = 0x4001 ∨ j = 0x4002) as [-> | [-> | ->]] by lia;
      vm_compute; discriminate.
  - vm_compute. lia.
  - exists s'. split; [exact Hrun |]. split; [| split; assumption].
    rewrite Hout; [vm_compute; reflexivity |].
    vm_compute. repeat constructor.
Defined.

(** C9 as stated fails twice.  A word whose low byte is 0x80 is written as
    the three bytes of U+FFFD, not as the byte 0x80; and of a string that
    reaches the last cell without a zero word nothing is written, although
    address 0 holds a zero word: the trap never returns, and it ends when
    [buf.push] throws, the output as it was. *)
Lemma puts_low_bytes_counterexample :
  (peek latin1_example 0x4000 = Num 0x80 ∧ peek latin1_example 0x4001 = Num 0
   ∧ ∃ s', trapHandler 2 (Num 0xF022) latin1_example = Ret tt s'
           ∧ stdout (host s') = [0xEF; 0xBF; 0xBD]
           ∧ stdout (host s') ≠ [toUint8 (peek latin1_example 0x4000)])
  ∧ (peek last_cell_example 0xFFFF = Num 65 ∧ peek last_cell_example 0 = Num 0
     ∧ (∀ fuel, trapHandler fuel (Num 0xF022) last_cell_example = Diverge
                ∨ trapHandler fuel (Num 0xF022) last_cell_example = Throw last_cell_example)
     ∧ ∃ fuel, trapHandler fuel (Num 0xF022) last_cell_example = Throw last_cell_example).
Proof.
  split.
  - split; [vm_compute; reflexivity |]. split; [vm_compute; reflexivity |].
    eexists. split; [vm_compute; reflexivity |].
    split; [vm_compute; reflexivity |]. vm_compute. discriminate.
  - assert (Hnone : ∀ z, 0xFFFF <= z <= 0xFFFF → peek last_cell_example z ≠ Num 0).
    { intros z Hz. assert (z = 0xFFFF) as -> by lia. vm_compute. discriminate. }
    split; [vm_compute; reflexivity |]. split; [vm_compute; reflexivity |]. split.
    + apply (puts_trap_never_returns last_cell_example (Num 0xF022) 0xFFFF);
        [vm_compute; reflexivity | vm_compute; reflexivity | exact Hnone].
    + exists (S (Z.to_nat MAX_ARRAY_LENGTH)).
      apply (puts_trap_throws last_cell_example (Num 0xF022) 0xFFFF);
        [vm_compute; reflexivity | vm_compute; reflexivity | exact Hnone |].
      apply Nat.lt_succ_diag_r.
Qed.

(** ** Frame of the traps *)

Lemma putsp_loop_unfold fuel a buf s :
  putsp_loop (S fuel) a buf s
  = let c := ta_get MEMORY_SIZE (memory s) a in
    if negb (strict_eq c (Num 0))
    then bind (push buf (band c (Num 0xFF)))
           (λ buf, bind (if truthy (shr c (Num 8)) then push buf (shr c (Num 8)) else ret buf)
                     (putsp_loop fuel (num_add a (Num 1)))) s
    else Ret (a, buf) s.
Proof.
  cbn [putsp_loop]. unfold bind at 1. unfold mem at 1. cbv zeta.
  destruct (negb _); [| reflexivity].
  unfold bind at 1 3. unfold push at 1 3.
  destruct (_ <? _); reflexivity.
Qed.

Lemma putsp_loop_cases fuel :
  ∀ a buf s,
    putsp_loop fuel a buf s = Diverge ∨ putsp_loop fuel a buf s = Throw s
    ∨ ∃ r, putsp_loop fuel a buf s = Ret r s.
Proof.
  induction fuel as [| fuel IH]; intros a buf s.
  - left. reflexivity.
  - rewrite putsp_loop_unfold. cbv zeta.
    destruct (negb _); [| right; right; eauto].
    unfold bind.
    destruct (push_cases buf (band (ta_get MEMORY_SIZE (memory s) a) (Num 0xFF)) s)
      as [-> | ->]; [| right; left; reflexivity].
    destruct (truthy _).
    + destruct (push_cases (buf ++ [band (ta_get MEMORY_SIZE (memory s) a) (Num 0xFF)])
                  (shr (ta_get MEMORY_SIZE (memory s) a) (Num 8)) s) as [-> | ->];
        [apply IH | right; left; reflexivity].
    + apply IH.
Qed.

(** A trap throws only from [push], in PUTS and PUTSP, the state as it was. *)
Lemma trapHandler_throws fuel instr s s' :
  trapHandler fuel instr s = Throw s' →
  s' = s ∧ (band instr (Num 0xFF) = Num TRAP_PUTS ∨ band instr (Num 0xFF) = Num TRAP_PUTSP).
Proof.
  unfold trapHandler.
  destruct (band instr (Num 0xFF)) as [t | |]; try discriminate.
  destruct (decide (0x20 <= t <= 0x25)) as [Hin | Hout].
  - assert (t = 0x20 ∨ t = 0x21 ∨ t = 0x22 ∨ t = 0x23 ∨ t = 0x24 ∨ t = 0x25)
      as [-> | [-> | [-> | [-> | [-> | ->]]]]] by lia; cbv iota beta.
    + (* GETC *)
      unfold bind. rewrite getChar_run. destruct (quits (host s)); discriminate.
    + (* OUT *)
      rewrite run_reg. unfold putBuf, stdout_write. discriminate.
    + (* PUTS *)
      rewrite run_reg. unfold bind.
      destruct (puts_loop_cases fuel (ta_get R_COUNT (registers s) (Num R_R0)) [] s)
        as [-> | [-> | [r ->]]]; try discriminate.
      intros [= <-]. split; [reflexivity | left; reflexivity].
    + (* IN *)
      unfold console_log, stdout_write. unfold bind at 1. unfold bind.
      rewrite getChar_run. destruct (quits _); discriminate.
    + (* PUTSP *)
      rewrite run_reg. unfold bind.
      destruct (putsp_loop_cases fuel (ta_get R_COUNT (registers s) (Num R_R0)) [] s)
        as [-> | [-> | [r ->]]]; try discriminate.
      intros [= <-]. split; [reflexivity | right; reflexivity].
    + (* HALT *)
      unfold console_log, stdout_write, set_run, bind. discriminate.
  - destruct t as [| p | p]; try discriminate.
    do 6 (destruct p as [p | p |]; try discriminate); lia.
Qed.

Lemma host_extends_emit h bytes : host_extends h (emit bytes h).
Proof.
  repeat split; [cbn; lia |]. exists bytes. reflexivity.
Qed.

Lemma host_extends_getChar h : host_extends h (after_getChar h).
Proof.
  unfold after_getChar.
  destruct (is_q _); (repeat split; [cbn; lia |]); exists []; cbn;
    rewrite app_nil_r; reflexivity.
Qed.

Lemma host_extends_trans h1 h2 h3 :
  host_extends h1 h2 → host_extends h2 h3 → host_extends h1 h3.
Proof.
  intros (Hk1 & Hy1 & Hc1 & b1 & Ho1) (Hk2 & Hy2 & Hc2 & b2 & Ho2).
  repeat split; [congruence | congruence | lia |].
  exists (b1 ++ b2). rewrite Ho2, Ho1, app_assoc. reflexivity.
Qed.

Lemma trap_frame_intro r0 run s s' :
  (∀ k, k ≠ R_R0 → R s' k = R s k) →
  (r0 = false → registers s' = registers s) →
  (run = false → running s' = running s) →
  memory s' = memory s →
  host_extends (host s) (host s') →
  trap_frame r0 run s s'.
Proof. unfold trap_frame. auto. Qed.

Ltac frame_of Hhost :=
  apply trap_frame_intro;
  unfold R; cbn [registers set_registers set_running set_host memory host running];
  [ intros k Hk; first [ reflexivity | apply ta_get_set_ne; congruence ]
  | first [ reflexivity | discriminate ]
  | first [ reflexivity | discriminate ]
  | reflexivity
  | Hhost ].

(** C8.  A TRAP with vector 0x20..0x25 leaves R1..R7, PC, COND and all of
    memory as they were: no return address is saved and PC stays at the
    instruction after the TRAP, where the fetch left it.  R0 changes only in
    GETC and IN, the running flag only in HALT; the rest of the effect is on
    the host.  A trap ends the process only when the user quits at the
    keyboard request of GETC or IN.  It throws only in PUTS and PUTSP, from
    [buf.push] on a string without terminator, and then nothing at all has
    changed, the output included; in the model these two may also run out
    of fuel. *)
Theorem trap_preserves_registers (fuel : nat) (instr : value) (s : state) (t : Z) :
  band instr (Num 0xFF) = Num t →
  TRAP_GETC <= t <= TRAP_HALT →
  match trapHandler fuel instr s with
  | Ret _ s' => trap_frame (is_GETC_or_IN t) (is_HALT t) s s'
  | Exit code s' =>
      code = 0 ∧ is_GETC_or_IN t = true ∧ trap_frame false false s s'
  | Throw s' => (t = TRAP_PUTS ∨ t = TRAP_PUTSP) ∧ s' = s
  | Diverge => t = TRAP_PUTS ∨ t = TRAP_PUTSP
  end.
Proof.
  intros Hvec Ht. unfold trapHandler. rewrite Hvec.
  unfold TRAP_GETC, TRAP_HALT in Ht.
  assert (t = 0x20 ∨ t = 0x21 ∨ t = 0x22 ∨ t = 0x23 ∨ t = 0x24 ∨ t = 0x25)
    as [-> | [-> | [-> | [-> | [-> | ->]]]]] by lia; cbv iota beta.
  - (* GETC *)
    unfold bind. rewrite getChar_run. destruct (quits (host s)).
    + split; [reflexivity |]. split; [reflexivity |].
      frame_of ltac:(apply host_extends_getChar).
    + unfold set_reg. frame_of ltac:(apply host_extends_getChar).
  - (* OUT *)
    rewrite run_reg. unfold putBuf, stdout_write.
    frame_of ltac:(apply host_extends_emit).
  - (* PUTS *)
    rewrite run_reg. unfold bind.
    destruct (puts_loop_cases fuel (ta_get R_COUNT (registers s) (Num R_R0)) [] s)
      as [-> | [-> | [r ->]]];
      [left; reflexivity | split; [left; reflexivity | reflexivity] |].
    unfold putBuf, stdout_write.
    frame_of ltac:(apply host_extends_emit).
  - (* IN *)
    unfold console_log, stdout_write. unfold bind at 1. unfold bind.
    rewrite getChar_run. cbn [host set_host].
    destruct (quits _).
    + split; [reflexivity |]. split; [reflexivity |].
      frame_of ltac:(eapply host_extends_trans;
                     [apply host_extends_emit | apply host_extends_getChar]).
    + unfold set_reg.
      frame_of ltac:(eapply host_extends_trans;
                     [apply host_extends_emit | apply host_extends_getChar]).
  - (* PUTSP *)
    rewrite run_reg. unfold bind.
    destruct (putsp_loop_cases fuel (ta_get R_COUNT (registers s) (Num R_R0)) [] s)
      as [-> | [-> | [r ->]]];
      [right; reflexivity | split; [right; reflexivity | reflexivity] |].
    unfold putBuf, stdout_write.
    frame_of ltac:(apply host_extends_emit).
  - (* HALT *)
    unfold console_log, stdout_write, set_run, bind.
    frame_of ltac:(apply host_extends_emit).
Qed.

Lemma trap_preserves_registers_witness :
  match trapHandler 4 (Num 0xF022) hi_example with
  | Ret _ s' => trap_frame (is_GETC_or_IN 0x22) (is_HALT 0x22) hi_example s'
  | Exit code s' =>
      code = 0 ∧ is_GETC_or_IN 0x22 = true ∧ trap_frame false false hi_example s'
  | Throw s' => (0x22 = TRAP_PUTS ∨ 0x22 = TRAP_PUTSP) ∧ s' = hi_example
  | Diverge => 0x22 = TRAP_PUTS ∨ 0x22 = TRAP_PUTSP
  end.
Proof.
  apply (trap_preserves_registers 4 (Num 0xF022) hi_example 0x22).
  - vm_compute. reflexivity.
  - unfold TRAP_GETC, TRAP_HALT. lia.
Defined.

(** ** Effective addresses of loads and stores *)

(** An address outside the array reads as [undefined] and a store to it is
    dropped: nothing reduces the sum modulo 2^16 on the way to memory. *)
Lemma memRead_out_of_range a s :
  ¬ (0 <= a < 65536) → memRead (Num a) s = Ret Undefined s.
Proof.
  intros Ha. rewrite memRead_pure.
  - unfold ta_get, valid_index, MEMORY_SIZE.
    destruct (Z.leb_spec 0 a), (Z.ltb_spec a 65536); cbn; (reflexivity || lia).
  - unfold MR_KBSR. intros [= ->]. lia.
Qed.

Lemma memWrite_out_of_range a v s :
  ¬ (0 <= a < 65536) → memWrite (Num a) v s = Ret tt s.
Proof.
  intros Ha. unfold memWrite, set_mem, ta_set, valid_index, MEMORY_SIZE.
  destruct (Z.leb_spec 0 a), (Z.ltb_spec a 65536); cbn; try lia;
    destruct s; reflexivity.
Qed.

(** C1 (the code at the failing inputs).  The sum R1 + sext(-1) = -1 is not
    reduced to 0xFFFF: LDR loads nothing and leaves 0 in R0 although
    M[0xFFFF] = 0x1234.  The sum 0xFFFF + 1 = 0x10000 is not reduced to 0:
    STR changes no memory cell.  And LD in the last cell, with PC wrapped to
    0 by the fetch, computes 0 + sext(-1) = -1 and loads 0 instead of
    M[0xFFFF].  The same from the start of the machine, on the image
    30 00 92 7F 72 80 60 41 (NOT R1,R1; STR R1,R2,#0; LDR R0,R1,#1): after
    three iterations M[0] = 0xFFFF and R1 = 0xFFFF, and the LDR at
    0xFFFF + 1 has left 0 in R0, not M[0]. *)
Theorem effective_address_not_reduced :
  (peek ldr_example 0xFFFF = Num 0x1234
   ∧ ∃ s', step 0 ldr_example = Ret tt s'
           ∧ R s' R_R0 = Num 0 ∧ R s' R_COND = Num FL_ZRO)
  ∧ (∃ s', step 0 str_example = Ret tt s'
           ∧ memory s' = memory str_example ∧ peek s' 0 = Num 0
           ∧ R s' R_R0 = Num 0xBEEF)
  ∧ (peek ld_example 0xFFFF = Num 0x21FF
     ∧ ∃ s', step 0 ld_example = Ret tt s'
             ∧ R s' R_PC = Num 0 ∧ R s' R_R0 = Num 0)
  ∧ (∃ s', (readImage [x30; x00; x92; x7f; x72; x80; x60; x41]%byte >> steps 3)
             (boot quiet_host) = Ret tt s'
           ∧ peek s' 0 = Num 0xFFFF ∧ R s' R_R1 = Num 0xFFFF
           ∧ R s' R_R0 = Num 0 ∧ R s' R_COND = Num FL_ZRO).
Proof.
  split; [| split; [| split]].
  - split; [vm_compute; reflexivity |].
    eexists. split; [vm_compute; reflexivity |].
    split; vm_compute; reflexivity.
  - eexists. split; [vm_compute; reflexivity |].
    split; [vm_compute; reflexivity |].
    split; vm_compute; reflexivity.
  - split; [vm_compute; reflexivity |].
    eexists. split; [vm_compute; reflexivity |].
    split; vm_compute; reflexivity.
  - eexists. split; [vm_compute; reflexivity |].
    split; [vm_compute; reflexivity |].
    split; [vm_compute; reflexivity |].
    split; vm_compute; reflexivity.
Qed.

(** ** Image loader *)

Lemma byte_val_range b : 0 <= byte_val b < 256.
Proof.
  unfold byte_val. pose proof (Byte.to_N_bounded b). lia.
Qed.

Lemma readImage_loop_unfold fuel image origin pos s :
  readImage_loop (S fuel) image origin pos s
  = if (pos + 1) * 2 <? Z.of_nat (List.length image) then
      match readUInt16BE image ((pos + 1) * 2) with
      | None => Throw s
      | Some w =>
          readImage_loop fuel image origin (pos + 1)
            (set_memory (ta_set MEMORY_SIZE (memory s) (Num (origin + pos)) (Num w)) s)
      end
    else Ret tt s.
Proof.
  cbn [readImage_loop].
  destruct (_ <? _); [| reflexivity].
  destruct (readUInt16BE _ _); reflexivity.
Qed.

Lemma readUInt16BE_inside (image : list byte) offset :
  0 <= offset → offset + 1 < Z.of_nat (List.length image) →
  ∃ first last, image !! Z.to_nat offset = Some first
                ∧ image !! Z.to_nat (offset + 1) = Some last
                ∧ readUInt16BE image offset = Some (byte_val first * 2 ^ 8 + byte_val last).
Proof.
  intros Hoff Hlen.
  destruct (lookup_lt_is_Some_2 image (Z.to_nat offset) ltac:(lia)) as [first Hfirst].
  destruct (lookup_lt_is_Some_2 image (Z.to_nat (offset + 1)) ltac:(lia)) as [last Hlast].
  exists first, last. unfold readUInt16BE. rewrite Hfirst, Hlast. auto.
Qed.

Lemma readUInt16BE_outside (image : list byte) offset :
  0 <= offset → Z.of_nat (List.length image) <= offset + 1 →
  readUInt16BE image offset = None.
Proof.
  intros Hoff Hlen. unfold readUInt16BE.
  rewrite (lookup_ge_None_2 image (Z.to_nat (offset + 1))) by lia.
  destruct (image !! Z.to_nat offset); reflexivity.
Qed.

(** On a stream of odd length the loop lets the last, lone byte pass its
    guard and then reads two bytes there. *)
Lemma readImage_loop_odd (image : list byte) origin :
  Z.odd (Z.of_nat (List.length image)) = true →
  ∀ (fuel : nat) pos s,
    0 <= pos →
    (pos + 1) * 2 < Z.of_nat (List.length image) →
    Z.of_nat (List.length image) - 2 * pos <= 2 * Z.of_nat fuel →
    ∃ s', readImage_loop fuel image origin pos s = Throw s'.
Proof.
  intros Hodd. induction fuel as [| fuel IH]; intros pos s Hpos Hguard Hfuel; [lia |].
  rewrite readImage_loop_unfold.
  destruct (Z.ltb_spec ((pos + 1) * 2) (Z.of_nat (List.length image))) as [_ | ?]; [| lia].
  destruct (Z.le_gt_cases (Z.of_nat (List.length image)) ((pos + 1) * 2 + 1)) as [Hend | Hmore].
  - rewrite readUInt16BE_outside by lia. eauto.
  - destruct (readUInt16BE_inside image ((pos + 1) * 2)) as (a & b & _ & _ & ->); [lia | lia |].
    apply IH; [lia | | lia].
    assert (Z.of_nat (List.length image) ≠ (pos + 1 + 1) * 2).
    { intros Heq. rewrite Heq in Hodd.
      rewrite Z.mul_comm, Z.odd_mul in Hodd. discriminate. }
    lia.
Qed.

(** Every stream of odd length at least 3 makes the loader throw. *)
Lemma readImage_odd_throws (image : list byte) s :
  Z.odd (Z.of_nat (List.length image)) = true →
  (3 <= List.length image)%nat →
  ∃ s', readImage image s = Throw s'.
Proof.
  intros Hodd Hlen. unfold readImage.
  destruct (readUInt16BE_inside image 0) as (a & b & _ & _ & ->); [lia | lia |].
  apply readImage_loop_odd; [exact Hodd | lia | lia | lia].
Qed.

(** C2 (the code at the failing input).  The five bytes 30 00 12 34 56:
    the loader stores 0x1234 at 0x3000 and then throws on the residual
    byte, while on the first four bytes alone it returns. *)
Theorem readImage_odd_residual_byte :
  (∃ s', readImage [x30; x00; x12; x34; x56]%byte (boot quiet_host) = Throw s'
         ∧ peek s' 0x3000 = Num 0x1234)
  ∧ (∃ s', readImage [x30; x00; x12; x34]%byte (boot quiet_host) = Ret tt s'
           ∧ peek s' 0x3000 = Num 0x1234).
Proof.
  split; eexists; (split; [vm_compute; reflexivity |]); vm_compute; reflexivity.
Qed.

Lemma word_of_range hi lo : 0 <= word_of hi lo < 65536.
Proof.
  unfold word_of. pose proof (byte_val_range hi). pose proof (byte_val_range lo).
  change (2 ^ 8) with 256. lia.
Qed.

Lemma length_pairs (payload : list (byte * byte)) :
  List.length (flat_map (λ p, [fst p; snd p]) payload) = (2 * List.length payload)%nat.
Proof.
  induction payload as [| p rest IH]; [reflexivity |].
  cbn [flat_map app List.length]. rewrite IH. lia.
Qed.

Lemma length_image_of o1 o2 payload :
  Z.of_nat (List.length (image_of o1 o2 payload)) = 2 + 2 * Z.of_nat (List.length payload).
Proof.
  unfold image_of. cbn [List.length]. rewrite length_pairs. lia.
Qed.

Lemma lookup_pairs (payload : list (byte * byte)) :
  ∀ (i : nat) a b,
    payload !! i = Some (a, b) →
    flat_map (λ p, [fst p; snd p]) payload !! (2 * i)%nat = Some a
    ∧ flat_map (λ p, [fst p; snd p]) payload !! S (2 * i) = Some b.
Proof.
  induction payload as [| p rest IH]; intros i a b Hi; [discriminate |].
  destruct i as [| i].
  - injection Hi as ->. cbn. auto.
  - cbn in Hi. destruct (IH i a b Hi) as [Ha Hb].
    replace (2 * S i)%nat with (S (S (2 * i))) by lia.
    cbn [flat_map app]. split; assumption.
Qed.

Lemma readUInt16BE_image_of o1 o2 payload (i : nat) a b :
  payload !! i = Some (a, b) →
  readUInt16BE (image_of o1 o2 payload) ((Z.of_nat i + 1) * 2) = Some (word_of a b).
Proof.
  intros Hi. destruct (lookup_pairs payload i a b Hi) as [Ha Hb].
  unfold readUInt16BE, image_of.
  replace (Z.to_nat ((Z.of_nat i + 1) * 2)) with (S (S (2 * i))) by lia.
  replace (Z.to_nat ((Z.of_nat i + 1) * 2 + 1)) with (S (S (S (2 * i)))) by lia.
  change ((o1 :: o2 :: flat_map (λ p, [fst p; snd p]) payload) !! S (S (2 * i)))
    with (flat_map (λ p, [fst p; snd p]) payload !! (2 * i)%nat).
  change ((o1 :: o2 :: flat_map (λ p, [fst p; snd p]) payload) !! S (S (S (2 * i))))
    with (flat_map (λ p, [fst p; snd p]) payload !! S (2 * i)).
  rewrite Ha, Hb. reflexivity.
Qed.

(** The loop from position [pos] on: it returns, having stored word [i] at
    [origin + i] for every [i >= pos] whose address is inside memory, and
    having left every other cell, the registers and the host alone. *)
Lemma readImage_loop_image_of o1 o2 payload origin :
  ∀ (fuel : nat) (pos : nat) s,
    (pos <= List.length payload)%nat →
    (List.length payload - pos < fuel)%nat →
    ∃ s', readImage_loop fuel (image_of o1 o2 payload) origin (Z.of_nat pos) s = Ret tt s'
          ∧ (∀ (i : nat) a b, (pos <= i)%nat → payload !! i = Some (a, b) →
                0 <= origin + Z.of_nat i < 65536 →
                peek s' (origin + Z.of_nat i) = Num (word_of a b))
          ∧ (∀ j, ¬ (origin + Z.of_nat pos <= j < origin + Z.of_nat (List.length payload)) →
                  peek s' j = peek s j)
          ∧ registers s' = registers s ∧ host s' = host s ∧ running s' = running s.
Proof.
  induction fuel as [| fuel IH]; intros pos s Hpos Hfuel; [lia |].
  rewrite readImage_loop_unfold, length_image_of.
  destruct (Z.ltb_spec ((Z.of_nat pos + 1) * 2) (2 + 2 * Z.of_nat (List.length payload)))
    as [Hin | Hout].
  - destruct (lookup_lt_is_Some_2 payload pos ltac:(lia)) as [[a b] Hab].
    rewrite (readUInt16BE_image_of o1 o2 payload pos a b Hab).
    set (s1 := set_memory _ s).
    destruct (IH (S pos) s1 ltac:(lia) ltac:(lia))
      as (s' & Hrun & Hwords & Hrest & Hregs & Hhost & Hrunning).
    replace (Z.of_nat pos + 1) with (Z.of_nat (S pos)) by lia.
    exists s'. split; [exact Hrun |]. split; [| split].
    + intros i a' b' Hi Hlook Hrange.
      destruct (decide (i = pos)) as [-> | Hne].
      * rewrite Hrest by lia.
        rewrite Hab in Hlook. injection Hlook as <- <-.
        unfold peek, s1. cbn [memory set_memory].
        rewrite ta_get_set_eq.
        -- cbn [toUint16]. rewrite Z.mod_small by apply word_of_range. reflexivity.
        -- unfold valid_index, MEMORY_SIZE.
           destruct (Z.leb_spec 0 (origin + Z.of_nat pos)),
                    (Z.ltb_spec (origin + Z.of_nat pos) 65536); cbn; (reflexivity || lia).
      * apply Hwords; [lia | exact Hlook | exact Hrange].
    + intros j Hj. rewrite Hrest by lia.
      unfold peek, s1. cbn [memory set_memory].
      apply ta_get_set_ne. lia.
    + repeat split; assumption.
  - exists s. split; [reflexivity |]. split; [| split; [reflexivity | repeat split]].
    intros i a b Hi Hlook _.
    apply lookup_lt_Some in Hlook. lia.
Qed.

(** C3 (amended).  For a stream that encodes origin [O] and then the
    big-endian words w_0 .. w_k, the loader run on an all-zero memory
    returns with M[O+i] = w_i for every [i] with O + i <= 0xFFFF and
    M[j] = 0 for every address [j] outside [O, O+k]. *)
Theorem readImage_places_words (s : state) (o1 o2 : byte) (payload : list (byte * byte)) :
  (∀ j, 0 <= j < 65536 → peek s j = Num 0) →
  ∃ s', readImage (image_of o1 o2 payload) s = Ret tt s'
        ∧ (∀ (i : nat) a b,
             payload !! i = Some (a, b) →
             word_of o1 o2 + Z.of_nat i <= 0xFFFF →
             peek s' (word_of o1 o2 + Z.of_nat i) = Num (word_of a b))
        ∧ (∀ j, 0 <= j < 65536 →
                ¬ (word_of o1 o2 <= j < word_of o1 o2 + Z.of_nat (List.length payload)) →
                peek s' j = Num 0)
        ∧ registers s' = registers s ∧ host s' = host s.
Proof.
  intros Hzero.
  pose proof (word_of_range o1 o2) as HO.
  destruct (readImage_loop_image_of o1 o2 payload (word_of o1 o2)
              (List.length (image_of o1 o2 payload)) 0%nat s)
    as (s' & Hrun & Hwords & Hrest & Hregs & Hhost & _).
  { lia. }
  { pose proof (length_image_of o1 o2 payload). lia. }
  exists s'. split; [| split; [| split; [| split; assumption]]].
  - unfold readImage. unfold image_of at 1. unfold readUInt16BE at 1. cbn [lookup list_lookup].
    change (Z.to_nat 0) with 0%nat. change (Z.to_nat (0 + 1)) with 1%nat.
    cbn [lookup list_lookup]. exact Hrun.
  - intros i a b Hlook Hrange. apply Hwords; [lia | exact Hlook | lia].
  - intros j Hj Hout. rewrite Hrest by (cbn; lia). apply Hzero, Hj.
Qed.

Lemma peek_boot h j : 0 <= j < 65536 → peek (boot h) j = Num 0.
Proof.
  intros Hj. unfold peek, boot, ta_get, valid_index, MEMORY_SIZE. cbn [memory].
  destruct (Z.leb_spec 0 j), (Z.ltb_spec j 65536); cbn; try lia.
  rewrite lookup_empty. reflexivity.
Qed.

Lemma readImage_places_words_witness :
  ∃ s', readImage (image_of x30 x00 [(x12, x34)]%byte) (boot quiet_host) = Ret tt s'
        ∧ (∀ (i : nat) a b,
             [(x12, x34)]%byte !! i = Some (a, b) →
             word_of x30 x00 + Z.of_nat i <= 0xFFFF →
             peek s' (word_of x30 x00 + Z.of_nat i) = Num (word_of a b))
        ∧ (∀ j, 0 <= j < 65536 →
                ¬ (word_of x30 x00 <= j
                   < word_of x30 x00 + Z.of_nat (List.length [(x12, x34)]%byte)) →
                peek s' j = Num 0)
        ∧ registers s' = registers (boot quiet_host) ∧ host s' = host (boot quiet_host).
Proof.
  apply (readImage_places_words (boot quiet_host) x30 x00 [(x12, x34)]%byte).
  intros j Hj. apply peek_boot, Hj.
Defined.

(** C3 as stated fails at the top of memory: with origin 0xFFFF and the
    words 1 and 2, the second word has no cell at 0xFFFF + 1, and it is not
    stored at address 0 either. *)
Lemma readImage_top_of_memory_counterexample :
  ∃ s', readImage (image_of xff xff [(x00, x01); (x00, x02)]%byte) (boot quiet_host)
        = Ret tt s'
        ∧ word_of xff xff = 0xFFFF
        ∧ peek s' 0xFFFF = Num (word_of x00 x01)
        ∧ peek s' (0xFFFF + 1) ≠ Num (word_of x00 x02)
        ∧ peek s' ((0xFFFF + 1) mod 65536) ≠ Num (word_of x00 x02).
Proof.
  eexists. split; [vm_compute; reflexivity |].
  split; [vm_compute; reflexivity |].
  split; [vm_compute; reflexivity |].
  split; vm_compute; discriminate.
Qed.

(** * Further properties of the handlers *)

(** ** Register results *)

Lemma DR_range instr d : DR instr = Num d → 0 <= d <= 7.
Proof.
  intros Hd. unfold DR in Hd.
  destruct (decode_reg (shr instr (Num 9))) as (k & Hk & Hrange).
  rewrite Hk in Hd. injection Hd as <-. exact Hrange.
Qed.

Lemma valid_register k : 0 <= k <= 9 → valid_index R_COUNT k = true.
Proof.
  intros Hk. unfold valid_index, R_COUNT.
  destruct (Z.leb_spec 0 k), (Z.ltb_spec k 10); cbn; (reflexivity || lia).
Qed.

Lemma write_result_spec d v s :
  0 <= d <= 7 →
  R (write_result d v s) d = Num (toUint16 v)
  ∧ flags_set d (write_result d v s)
  ∧ (∀ k, k ≠ d → k ≠ R_COND → R (write_result d v s) k = R s k)
  ∧ only_registers s (write_result d v s).
Proof.
  intros Hd. split; [| split; [| split]].
  - unfold R, write_result. cbn [registers set_registers].
    rewrite ta_get_set_ne by (unfold R_COND; lia).
    apply ta_get_set_eq, valid_register. lia.
  - apply flags_set_after, Hd.
  - intros k Hk Hc. unfold R, write_result. cbn [registers set_registers].
    rewrite !ta_get_set_ne by congruence. reflexivity.
  - repeat split.
Qed.

Lemma add_run instr s d :
  DR instr = Num d →
  add instr s = Ret tt (write_result d (num_add (Rf s (BaseR instr)) (operand2 s instr)) s).
Proof.
  intros Hd. pose proof (DR_range instr d Hd) as Hrange.
  unfold add, operand2, imm_flag, imm5, SR2, BaseR, Rf, DR in *. rewrite Hd.
  destruct (truthy _); rewrite bind_assoc, run_reg.
  - apply write_flags, Hrange.
  - rewrite bind_assoc, run_reg. apply write_flags, Hrange.
Qed.

Lemma bitwiseAnd_run instr s d :
  DR instr = Num d →
  bitwiseAnd instr s = Ret tt (write_result d (band (Rf s (BaseR instr)) (operand2 s instr)) s).
Proof.
  intros Hd. pose proof (DR_range instr d Hd) as Hrange.
  unfold bitwiseAnd, operand2, imm_flag, imm5, SR2, BaseR, Rf, DR in *. rewrite Hd.
  destruct (truthy _); rewrite bind_assoc, run_reg.
  - apply write_flags, Hrange.
  - rewrite bind_assoc, run_reg. apply write_flags, Hrange.
Qed.

Lemma bitwiseNot_run instr s d :
  DR instr = Num d →
  bitwiseNot instr s = Ret tt (write_result d (bnot (Rf s (BaseR instr))) s).
Proof.
  intros Hd. pose proof (DR_range instr d Hd) as Hrange.
  unfold bitwiseNot, BaseR, Rf, DR in *. rewrite Hd, run_reg.
  apply write_flags, Hrange.
Qed.

Lemma land_mod_pow2 a b n :
  0 <= n → Z.land a b mod 2 ^ n = Z.land (a mod 2 ^ n) (b mod 2 ^ n).
Proof.
  intros Hn. rewrite <- !Z.land_ones by lia.
  apply Z.bits_inj'. intros i Hi.
  rewrite !Z.land_spec. destruct (Z.testbit a i), (Z.testbit b i), (Z.testbit (Z.ones n) i);
    reflexivity.
Qed.

Lemma toUint16_band x y :
  toUint16 (band (Num x) (Num y)) = Z.land (x mod 65536) (y mod 65536).
Proof.
  unfold band. cbn [toInt32 toUint16]. change 65536 with (2 ^ 16).
  rewrite land_mod_pow2 by lia. rewrite !wrap32_mod_pow2 by lia. reflexivity.
Qed.

Lemma toUint16_bnot x : toUint16 (bnot (Num x)) = 65535 - x mod 65536.
Proof.
  unfold bnot. cbn [toInt32 toUint16].
  pose proof (wrap32_mod_pow2 x 16 ltac:(lia)) as Hw. change (2 ^ 16) with 65536 in Hw.
  rewrite <- Hw. unfold Z.lnot.
  pose proof (Z.mod_pos_bound (wrap32 x) 65536 ltac:(lia)) as Hr.
  symmetry. apply (Z.mod_unique _ _ (- (wrap32 x / 65536) - 1)); [lia |].
  pose proof (Z.div_mod (wrap32 x) 65536 ltac:(lia)). lia.
Qed.

(** X1.  ADD leaves (SR1 + operand) mod 2^16 in DR, the operand being the
    sign-extended imm5 or SR2, sets the flags on DR and changes no other
    general register, nor PC, memory, the host or the running flag. *)
Theorem add_wraps (s : state) (instr : value) (d x y : Z) :
  DR instr = Num d →
  Rf s (BaseR instr) = Num x →
  operand2 s instr = Num y →
  ∃ s', add instr s = Ret tt s'
        ∧ R s' d = Num ((x + y) mod 65536)
        ∧ flags_set d s'
        ∧ (∀ k, k ≠ d → k ≠ R_COND → R s' k = R s k)
        ∧ only_registers s s'.
Proof.
  intros Hd Hx Hy. eexists. split; [apply add_run, Hd |].
  rewrite Hx, Hy. cbn [num_add].
  destruct (write_result_spec d (Num (x + y)) s (DR_range _ _ Hd)) as (H1 & H2 & H3 & H4).
  repeat split; assumption.
Qed.

Lemma add_wraps_witness :
  ∃ s', add (Num 0x127F) ldr_example = Ret tt s'
        ∧ R s' 1 = Num ((0 + -1) mod 65536)
        ∧ flags_set 1 s'
        ∧ (∀ k, k ≠ 1 → k ≠ R_COND → R s' k = R ldr_example k)
        ∧ only_registers ldr_example s'.
Proof.
  apply (add_wraps ldr_example (Num 0x127F) 1 0 (-1)); vm_compute; reflexivity.
Defined.

(** X2.  AND leaves the bitwise conjunction of SR1 and the operand, both
    taken as 16-bit words, in DR and sets the flags on it; nothing else
    changes. *)
Theorem bitwiseAnd_result (s : state) (instr : value) (d x y : Z) :
  DR instr = Num d →
  Rf s (BaseR instr) = Num x →
  operand2 s instr = Num y →
  ∃ s', bitwiseAnd instr s = Ret tt s'
        ∧ R s' d = Num (Z.land (x mod 65536) (y mod 65536))
        ∧ flags_set d s'
        ∧ (∀ k, k ≠ d → k ≠ R_COND → R s' k = R s k)
        ∧ only_registers s s'.
Proof.
  intros Hd Hx Hy. eexists. split; [apply bitwiseAnd_run, Hd |].
  rewrite Hx, Hy.
  destruct (write_result_spec d (band (Num x) (Num y)) s (DR_range _ _ Hd))
    as (H1 & H2 & H3 & H4).
  rewrite toUint16_band in H1. repeat split; assumption.
Qed.

Lemma bitwiseAnd_result_witness :
  ∃ s', bitwiseAnd (Num 0x5020) str_example = Ret tt s'
        ∧ R s' 0 = Num (Z.land (0xBEEF mod 65536) (0 mod 65536))
        ∧ flags_set 0 s'
        ∧ (∀ k, k ≠ 0 → k ≠ R_COND → R s' k = R str_example k)
        ∧ only_registers str_example s'.
Proof.
  apply (bitwiseAnd_result str_example (Num 0x5020) 0 0xBEEF 0); vm_compute; reflexivity.
Defined.

(** X3.  NOT leaves the 16-bit complement 0xFFFF - SR in DR and sets the
    flags on it; nothing else changes. *)
Theorem bitwiseNot_complement (s : state) (instr : value) (d x : Z) :
  DR instr = Num d →
  Rf s (BaseR instr) = Num x →
  ∃ s', bitwiseNot instr s = Ret tt s'
        ∧ R s' d = Num (65535 - x mod 65536)
        ∧ flags_set d s'
        ∧ (∀ k, k ≠ d → k ≠ R_COND → R s' k = R s k)
        ∧ only_registers s s'.
Proof.
  intros Hd Hx. eexists. split; [apply bitwiseNot_run, Hd |].
  rewrite Hx.
  destruct (write_result_spec d (bnot (Num x)) s (DR_range _ _ Hd)) as (H1 & H2 & H3 & H4).
  rewrite toUint16_bnot in H1. repeat split; assumption.
Qed.

Lemma bitwiseNot_complement_witness :
  ∃ s', bitwiseNot (Num 0x903F) str_example = Ret tt s'
        ∧ R s' 0 = Num (65535 - 0xBEEF mod 65536)
        ∧ flags_set 0 s'
        ∧ (∀ k, k ≠ 0 → k ≠ R_COND → R s' k = R str_example k)
        ∧ only_registers str_example s'.
Proof.
  apply (bitwiseNot_complement str_example (Num 0x903F) 0 0xBEEF); vm_compute; reflexivity.
Defined.

(** X4.  NOT applied twice to the same register restores its 16-bit
    content; only COND may differ from the state before. *)
Theorem double_not_restores (s : state) (instr : value) (d x : Z) :
  DR instr = Num d →
  BaseR instr = Num d →
  R s d = Num x →
  0 <= x < 65536 →
  ∃ s', (bitwiseNot instr >> bitwiseNot instr) s = Ret tt s'
        ∧ R s' d = Num x
        ∧ (∀ k, k ≠ R_COND → R s' k = R s k)
        ∧ only_registers s s'.
Proof.
  intros Hd Hb Hx Hrange. pose proof (DR_range _ _ Hd) as Hdr.
  rewrite (bind_Ret _ _ _ _ _ (bitwiseNot_run instr s d Hd)).
  rewrite (bitwiseNot_run instr _ d Hd).
  eexists. split; [reflexivity |].
  unfold Rf. rewrite Hb. fold (R s d). rewrite Hx.
  set (s1 := write_result d (bnot (Num x)) s).
  destruct (write_result_spec d (bnot (Num x)) s Hdr) as (H1 & _ & H3 & H4).
  fold s1 in H1, H3, H4. fold (R s1 d). rewrite H1.
  destruct (write_result_spec d (bnot (Num (toUint16 (bnot (Num x))))) s1 Hdr)
    as (G1 & _ & G3 & G4).
  assert (Hback : toUint16 (bnot (Num (toUint16 (bnot (Num x))))) = x).
  { rewrite !toUint16_bnot. rewrite (Z.mod_small x) by lia.
    rewrite Z.mod_small by lia. lia. }
  split; [rewrite G1, Hback; reflexivity |]. split.
  - intros k Hk. destruct (decide (k = d)) as [-> | Hne].
    + rewrite G1, Hback, Hx. reflexivity.
    + rewrite G3, H3 by assumption. reflexivity.
  - destruct H4 as (? & ? & ?), G4 as (? & ? & ?). repeat split; congruence.
Qed.

Lemma double_not_restores_witness :
  ∃ s', (bitwiseNot (Num 0x903F) >> bitwiseNot (Num 0x903F)) str_example = Ret tt s'
        ∧ R s' 0 = Num 0xBEEF
        ∧ (∀ k, k ≠ R_COND → R s' k = R str_example k)
        ∧ only_registers str_example s'.
Proof.
  apply (double_not_restores str_example (Num 0x903F) 0 0xBEEF);
    [vm_compute; reflexivity | vm_compute; reflexivity | vm_compute; reflexivity | lia].
Defined.

(** ** Control flow *)

Lemma land_small_wrap32 n c : 0 <= n < 65536 → Z.land n (wrap32 c) = Z.land n c.
Proof.
  intros Hn.
  rewrite <- (Z.mod_small n (2 ^ 16)) by (change (2 ^ 16) with 65536; lia).
  rewrite <- (Z.land_ones n 16) by lia.
  rewrite <- !Z.land_assoc, !(Z.land_comm (Z.ones 16)), !Z.land_ones by lia.
  rewrite wrap32_mod_pow2 by lia. reflexivity.
Qed.

Lemma field3_range a k : band a (Num 0x7) = Num k → 0 <= k <= 7.
Proof.
  intros Hk. destruct (decode_reg a) as (k' & Hk' & Hrange).
  rewrite Hk' in Hk. injection Hk as <-. exact Hrange.
Qed.

Lemma branch_run instr s :
  branch instr s
  = if truthy (band (nzp instr) (Rf s (Num R_COND)))
    then Ret tt (set_registers
                   (ta_set R_COUNT (registers s) (Num R_PC)
                           (num_add (Rf s (Num R_PC)) (PCoffset9 instr))) s)
    else Ret tt s.
Proof.
  unfold branch, nzp, PCoffset9, Rf. rewrite run_reg.
  destruct (truthy _); reflexivity.
Qed.

(** X5.  BR adds the sign-extended offset to PC, modulo 2^16, exactly when
    one of its n, z, p bits is also set in COND; otherwise it changes
    nothing at all.  Registers other than PC, memory and the host are never
    touched. *)
Theorem branch_taken_iff (s : state) (instr : value) (n c pc off : Z) :
  nzp instr = Num n →
  R s R_COND = Num c →
  R s R_PC = Num pc →
  PCoffset9 instr = Num off →
  ∃ s', branch instr s = Ret tt s'
        ∧ (Z.land n c ≠ 0 → R s' R_PC = Num ((pc + off) mod 65536))
        ∧ (Z.land n c = 0 → s' = s)
        ∧ (∀ k, k ≠ R_PC → R s' k = R s k)
        ∧ only_registers s s'.
Proof.
  intros Hn Hc Hpc Hoff. rewrite branch_run.
  pose proof (field3_range _ _ Hn) as Hrange.
  unfold Rf. fold (R s R_COND) (R s R_PC). rewrite Hn, Hc, Hpc, Hoff.
  unfold band. cbn [toInt32 truthy num_add].
  rewrite (wrap32_small n) by lia. rewrite land_small_wrap32 by lia.
  destruct (Z.eqb_spec (Z.land n c) 0) as [Hz | Hnz]; cbn [negb].
  - exists s. split; [reflexivity |]. split; [contradiction |].
    split; [reflexivity |]. split; [reflexivity | repeat split].
  - eexists. split; [reflexivity |]. split; [| split; [contradiction | split]].
    + intros _. unfold R. cbn [registers set_registers].
      rewrite ta_get_set_eq by reflexivity. reflexivity.
    + intros k Hk. unfold R. cbn [registers set_registers].
      apply ta_get_set_ne. congruence.
    + repeat split.
Qed.

Lemma branch_taken_iff_witness :
  ∃ s', branch (Num 0x0E05) (write_result 0 (Num 3) (boot quiet_host)) = Ret tt s'
        ∧ (Z.land 7 1 ≠ 0 → R s' R_PC = Num ((0x3000 + 5) mod 65536))
        ∧ (Z.land 7 1 = 0 → s' = write_result 0 (Num 3) (boot quiet_host))
        ∧ (∀ k, k ≠ R_PC → R s' k = R (write_result 0 (Num 3) (boot quiet_host)) k)
        ∧ only_registers (write_result 0 (Num 3) (boot quiet_host)) s'.
Proof.
  apply (branch_taken_iff (write_result 0 (Num 3) (boot quiet_host)) (Num 0x0E05) 7 1 0x3000 5);
    vm_compute; reflexivity.
Defined.

Lemma branch_cond_zero (s : state) (instr : value) :
  R s R_COND = Num 0 → branch instr s = Ret tt s.
Proof.
  intros Hc. rewrite branch_run.
  destruct (nzp instr) as [n | |] eqn:Hn; try discriminate.
  unfold Rf. fold (R s R_COND). rewrite Hc.
  unfold band. cbn [toInt32 truthy].
  change (wrap32 0) with 0. rewrite Z.land_0_r. reflexivity.
Qed.

Lemma jumpRegister_run instr s :
  jumpRegister instr s
  = let r1 := ta_set R_COUNT (registers s) (Num R_R7) (Rf s (Num R_PC)) in
    Ret tt (set_registers
              (ta_set R_COUNT r1 (Num R_PC)
                 (if truthy (long_flag instr)
                  then num_add (ta_get R_COUNT r1 (Num R_PC)) (PCoffset11 instr)
                  else ta_get R_COUNT r1 (BaseR instr))) s).
Proof.
  unfold jumpRegister, long_flag, PCoffset11, BaseR, Rf. rewrite run_reg, run_set_reg.
  cbv zeta. destruct (truthy _); rewrite run_reg; reflexivity.
Qed.

Lemma jump_run instr s :
  jump instr s
  = Ret tt (set_registers (ta_set R_COUNT (registers s) (Num R_PC) (Rf s (BaseR instr))) s).
Proof. unfold jump, BaseR, Rf. rewrite run_reg. reflexivity. Qed.

(** X7.  JSR and JSRR save the incremented PC in R7 before they compute
    the target.  JSR jumps to (PC + sext(offset11)) mod 2^16; JSRR jumps to
    the base register, read after R7 was overwritten: with base R7 the
    target is the return address itself and PC does not move.  No other
    register, no memory cell and no flag changes. *)
Theorem jumpRegister_links (s : state) (instr : value) (pc b x off : Z) :
  R s R_PC = Num pc →
  BaseR instr = Num b →
  R s b = Num x →
  PCoffset11 instr = Num off →
  ∃ s', jumpRegister instr s = Ret tt s'
        ∧ R s' R_R7 = Num (pc mod 65536)
        ∧ (truthy (long_flag instr) = true → R s' R_PC = Num ((pc + off) mod 65536))
        ∧ (truthy (long_flag instr) = false → b ≠ 7 → R s' R_PC = Num (x mod 65536))
        ∧ (truthy (long_flag instr) = false → b = 7 → R s' R_PC = Num (pc mod 65536))
        ∧ (∀ k, k ≠ R_R7 → k ≠ R_PC → R s' k = R s k)
        ∧ only_registers s s'.
Proof.
  intros Hpc Hb Hx Hoff. pose proof (field3_range _ _ Hb) as Hrange.
  rewrite jumpRegister_run. cbv zeta. eexists. split; [reflexivity |].
  unfold Rf. fold (R s R_PC). rewrite Hpc, Hb, Hoff.
  unfold R. cbn [registers set_registers].
  split; [| split; [| split; [| split; [| split]]]].
  - rewrite ta_get_set_ne by (unfold R_PC, R_R7; lia).
    rewrite ta_get_set_eq by reflexivity. reflexivity.
  - intros ->. rewrite ta_get_set_eq by reflexivity.
    rewrite ta_get_set_ne by (unfold R_PC, R_R7; lia).
    fold (R s R_PC). rewrite Hpc. reflexivity.
  - intros -> Hne. rewrite ta_get_set_eq by reflexivity.
    rewrite ta_get_set_ne by (unfold R_R7; lia).
    fold (R s b). rewrite Hx. reflexivity.
  - intros -> ->. rewrite ta_get_set_eq by reflexivity.
    unfold R_R7. rewrite ta_get_set_eq by reflexivity. cbn [toUint16].
    rewrite Z.mod_mod by lia. reflexivity.
  - intros k H7 HPC. rewrite !ta_get_set_ne by congruence. reflexivity.
  - repeat split.
Qed.

Lemma jumpRegister_links_witness :
  ∃ s', jumpRegister (Num 0x41C0) str_example = Ret tt s'
        ∧ R s' R_R7 = Num (0x3000 mod 65536)
        ∧ (truthy (long_flag (Num 0x41C0)) = true → R s' R_PC = Num ((0x3000 + 448) mod 65536))
        ∧ (truthy (long_flag (Num 0x41C0)) = false → 7 ≠ 7 → R s' R_PC = Num (0 mod 65536))
        ∧ (truthy (long_flag (Num 0x41C0)) = false → 7 = 7 → R s' R_PC = Num (0x3000 mod 65536))
        ∧ (∀ k, k ≠ R_R7 → k ≠ R_PC → R s' k = R str_example k)
        ∧ only_registers str_example s'.
Proof.
  apply (jumpRegister_links str_example (Num 0x41C0) 0x3000 7 0 448); vm_compute; reflexivity.
Defined.

(** X8.  A JSR followed by RET (JMP R7) comes back: PC is again the address
    after the JSR, which R7 still holds. *)
Theorem jsr_ret_returns (s : state) (jsr ret_ : value) (pc : Z) :
  R s R_PC = Num pc →
  truthy (long_flag jsr) = true →
  BaseR ret_ = Num 7 →
  ∃ s', (jumpRegister jsr >> jump ret_) s = Ret tt s'
        ∧ R s' R_PC = Num (pc mod 65536)
        ∧ R s' R_R7 = Num (pc mod 65536)
        ∧ (∀ k, k ≠ R_R7 → k ≠ R_PC → R s' k = R s k)
        ∧ only_registers s s'.
Proof.
  intros Hpc Hlong Hret.
  rewrite (bind_Ret _ _ _ _ _ (jumpRegister_run jsr s)). cbv zeta.
  rewrite jump_run. eexists. split; [reflexivity |].
  unfold Rf. rewrite Hret, Hlong. fold (R s R_PC). rewrite Hpc.
  unfold R. cbn [registers set_registers].
  split; [| split; [| split]].
  - rewrite ta_get_set_eq by reflexivity.
    rewrite ta_get_set_ne by (unfold R_PC; lia).
    rewrite ta_get_set_eq by reflexivity. cbn [toUint16].
    rewrite Z.mod_mod by lia. reflexivity.
  - rewrite !(ta_get_set_ne _ _ R_PC R_R7) by (unfold R_PC, R_R7; lia).
    rewrite ta_get_set_eq by reflexivity. reflexivity.
  - intros k H7 HPC. rewrite !ta_get_set_ne by congruence. reflexivity.
  - repeat split.
Qed.

Lemma jsr_ret_returns_witness :
  ∃ s', (jumpRegister (Num 0x4805) >> jump (Num 0xC1C0)) str_example = Ret tt s'
        ∧ R s' R_PC = Num (0x3000 mod 65536)
        ∧ R s' R_R7 = Num (0x3000 mod 65536)
        ∧ (∀ k, k ≠ R_R7 → k ≠ R_PC → R s' k = R str_example k)
        ∧ only_registers str_example s'.
Proof.
  apply (jsr_ret_returns str_example (Num 0x4805) (Num 0xC1C0) 0x3000); vm_compute; reflexivity.
Defined.

(** ** Loads and stores inside memory *)

Lemma valid_address a : 0 <= a < 65536 → valid_index MEMORY_SIZE a = true.
Proof.
  intros Ha. unfold valid_index, MEMORY_SIZE.
  destruct (Z.leb_spec 0 a), (Z.ltb_spec a 65536); cbn; (reflexivity || lia).
Qed.

Lemma store_run instr s :
  store instr s
  = Ret tt (set_memory
              (ta_set MEMORY_SIZE (memory s)
                 (num_add (Rf s (Num R_PC)) (PCoffset9 instr)) (Rf s (DR instr))) s).
Proof. unfold store, PCoffset9, DR, Rf, memWrite. rewrite !run_reg. reflexivity. Qed.

Lemma storeRegister_run instr s :
  storeRegister instr s
  = Ret tt (set_memory
              (ta_set MEMORY_SIZE (memory s)
                 (num_add (Rf s (BaseR instr)) (offset6 instr)) (Rf s (DR instr))) s).
Proof. unfold storeRegister, offset6, DR, BaseR, Rf, memWrite. rewrite !run_reg. reflexivity. Qed.

(** A plain read: the address is a cell other than KBSR. *)
Lemma memRead_cell a s :
  0 <= a < 65536 → a ≠ MR_KBSR →
  memRead (Num a) s = Ret (peek s a) s.
Proof.
  intros Ha Hk. apply memRead_pure. congruence.
Qed.

Lemma peek_set_memory_eq a v s :
  0 <= a < 65536 →
  peek (set_memory (ta_set MEMORY_SIZE (memory s) (Num a) v) s) a = Num (toUint16 v).
Proof.
  intros Ha. unfold peek. cbn [memory set_memory]. apply ta_get_set_eq, valid_address, Ha.
Qed.

Lemma peek_set_memory_ne a j v s :
  j ≠ a →
  peek (set_memory (ta_set MEMORY_SIZE (memory s) (Num a) v) s) j = peek s j.
Proof.
  intros Hj. unfold peek. cbn [memory set_memory]. apply ta_get_set_ne. congruence.
Qed.

Lemma load_run instr s a d :
  DR instr = Num d →
  num_add (Rf s (Num R_PC)) (PCoffset9 instr) = Num a →
  0 <= a < 65536 → a ≠ MR_KBSR →
  load instr s = Ret tt (write_result d (peek s a) s).
Proof.
  intros Hd Ha Hrange Hk. pose proof (DR_range _ _ Hd) as Hdr.
  unfold load, PCoffset9, Rf, DR in *. rewrite Hd, run_reg, Ha.
  rewrite (bind_Ret _ _ _ _ _ (memRead_cell a s Hrange Hk)).
  apply write_flags, Hdr.
Qed.

Lemma loadRegister_run instr s a d :
  DR instr = Num d →
  num_add (Rf s (BaseR instr)) (offset6 instr) = Num a →
  0 <= a < 65536 → a ≠ MR_KBSR →
  loadRegister instr s = Ret tt (write_result d (peek s a) s).
Proof.
  intros Hd Ha Hrange Hk. pose proof (DR_range _ _ Hd) as Hdr.
  unfold loadRegister, offset6, BaseR, Rf, DR in *. rewrite Hd, run_reg, Ha.
  rewrite (bind_Ret _ _ _ _ _ (memRead_cell a s Hrange Hk)).
  apply write_flags, Hdr.
Qed.

(** X9.  When PC + sext(offset9) is an address inside memory other than
    KBSR, ST followed by LD with the same offset (at the same PC) brings
    the stored 16-bit value back into the destination register, with the
    flags set on it; the ST changed that one cell and no register. *)
Theorem store_then_load (s : state) (st ld : value) (pc off sr d x : Z) :
  R s R_PC = Num pc →
  PCoffset9 st = Num off →
  PCoffset9 ld = Num off →
  0 <= pc + off < 65536 →
  pc + off ≠ MR_KBSR →
  DR st = Num sr →
  R s sr = Num x →
  DR ld = Num d →
  ∃ s1 s', store st s = Ret tt s1
           ∧ registers s1 = registers s
           ∧ peek s1 (pc + off) = Num (x mod 65536)
           ∧ (∀ j, j ≠ pc + off → peek s1 j = peek s j)
           ∧ load ld s1 = Ret tt s'
           ∧ R s' d = Num (x mod 65536)
           ∧ flags_set d s'
           ∧ memory s' = memory s1.
Proof.
  intros Hpc Hst Hld Hrange Hk Hsr Hx Hd.
  pose proof (DR_range _ _ Hd) as Hdr.
  rewrite store_run. unfold Rf at 1 2. fold (R s R_PC). rewrite Hpc, Hst, Hsr.
  fold (R s sr). rewrite Hx. cbn [num_add].
  set (s1 := set_memory _ s).
  exists s1. eexists. split; [reflexivity |]. split; [reflexivity |].
  split; [apply peek_set_memory_eq, Hrange |].
  split; [intros j Hj; apply peek_set_memory_ne, Hj |].
  assert (Hload : load ld s1 = Ret tt (write_result d (peek s1 (pc + off)) s1)).
  { apply load_run; try assumption.
    unfold Rf. change (registers s1) with (registers s). fold (R s R_PC).
    rewrite Hpc, Hld. reflexivity. }
  split; [exact Hload |].
  destruct (write_result_spec d (peek s1 (pc + off)) s1 Hdr) as (H1 & H2 & _ & H4 & _).
  split; [| split; assumption].
  rewrite H1. unfold s1. rewrite peek_set_memory_eq by exact Hrange.
  cbn [toUint16]. rewrite Z.mod_mod by lia. reflexivity.
Qed.

Lemma store_then_load_witness :
  ∃ s1 s', store (Num 0x3005) str_example = Ret tt s1
           ∧ registers s1 = registers str_example
           ∧ peek s1 (0x3000 + 5) = Num (0xBEEF mod 65536)
           ∧ (∀ j, j ≠ 0x3000 + 5 → peek s1 j = peek str_example j)
           ∧ load (Num 0x2405) s1 = Ret tt s'
           ∧ R s' 2 = Num (0xBEEF mod 65536)
           ∧ flags_set 2 s'
           ∧ memory s' = memory s1.
Proof.
  apply (store_then_load str_example (Num 0x3005) (Num 0x2405) 0x3000 5 0 2 0xBEEF);
    try (vm_compute; reflexivity).
  - lia.
  - unfold MR_KBSR. lia.
Defined.

(** X10.  The same round trip through a base register: when
    R[base] + sext(offset6) is an address inside memory other than KBSR, STR
    followed by LDR with the same base and offset loads the stored 16-bit
    value. *)
Theorem storeRegister_then_loadRegister (s : state) (st ld : value) (b base off sr d x : Z) :
  BaseR st = Num b →
  BaseR ld = Num b →
  R s b = Num base →
  offset6 st = Num off →
  offset6 ld = Num off →
  0 <= base + off < 65536 →
  base + off ≠ MR_KBSR →
  DR st = Num sr →
  R s sr = Num x →
  DR ld = Num d →
  ∃ s1 s', storeRegister st s = Ret tt s1
           ∧ registers s1 = registers s
           ∧ peek s1 (base + off) = Num (x mod 65536)
           ∧ (∀ j, j ≠ base + off → peek s1 j = peek s j)
           ∧ loadRegister ld s1 = Ret tt s'
           ∧ R s' d = Num (x mod 65536)
           ∧ flags_set d s'
           ∧ memory s' = memory s1.
Proof.
  intros Hbst Hbld Hbase Hst Hld Hrange Hk Hsr Hx Hd.
  pose proof (DR_range _ _ Hd) as Hdr.
  rewrite storeRegister_run. unfold Rf at 1 2. rewrite Hbst, Hst, Hsr.
  fold (R s b) (R s sr). rewrite Hbase, Hx. cbn [num_add].
  set (s1 := set_memory _ s).
  exists s1. eexists. split; [reflexivity |]. split; [reflexivity |].
  split; [apply peek_set_memory_eq, Hrange |].
  split; [intros j Hj; apply peek_set_memory_ne, Hj |].
  assert (Hload : loadRegister ld s1 = Ret tt (write_result d (peek s1 (base + off)) s1)).
  { apply loadRegister_run; try assumption.
    unfold Rf. change (registers s1) with (registers s). rewrite Hbld. fold (R s b).
    rewrite Hbase, Hld. reflexivity. }
  split; [exact Hload |].
  destruct (write_result_spec d (peek s1 (base + off)) s1 Hdr) as (H1 & H2 & _ & H4 & _).
  split; [| split; assumption].
  rewrite H1. unfold s1. rewrite peek_set_memory_eq by exact Hrange.
  cbn [toUint16]. rewrite Z.mod_mod by lia. reflexivity.
Qed.

Lemma storeRegister_then_loadRegister_witness :
  ∃ s1 s', storeRegister (Num 0x707F) str_example = Ret tt s1
           ∧ registers s1 = registers str_example
           ∧ peek s1 (0xFFFF + -1) = Num (0xBEEF mod 65536)
           ∧ (∀ j, j ≠ 0xFFFF + -1 → peek s1 j = peek str_example j)
           ∧ loadRegister (Num 0x667F) s1 = Ret tt s'
           ∧ R s' 3 = Num (0xBEEF mod 65536)
           ∧ flags_set 3 s'
           ∧ memory s' = memory s1.
Proof.
  apply (storeRegister_then_loadRegister str_example (Num 0x707F) (Num 0x667F)
           1 0xFFFF (-1) 0 3 0xBEEF);
    try (vm_compute; reflexivity).
  - lia.
  - unfold MR_KBSR. lia.
Defined.

(** X11.  LDI follows the pointer: when P = PC + sext(offset9) is a cell
    other than KBSR and the word T stored there is not KBSR either, the
    destination register receives the word at T (0 when T lies outside
    memory), the flags are set on it, and memory and the host are as
    before. *)
Theorem loadIndirect_follows_pointer (s : state) (instr : value) (pc off d T : Z) :
  R s R_PC = Num pc →
  PCoffset9 instr = Num off →
  pc + off ≠ MR_KBSR →
  peek s (pc + off) = Num T →
  T ≠ MR_KBSR →
  DR instr = Num d →
  ∃ s', loadIndirect instr s = Ret tt s'
        ∧ R s' d = Num (toUint16 (peek s T))
        ∧ flags_set d s'
        ∧ (∀ k, k ≠ d → k ≠ R_COND → R s' k = R s k)
        ∧ only_registers s s'.
Proof.
  intros Hpc Hoff HkP HP HkT Hd. pose proof (DR_range _ _ Hd) as Hdr.
  pose proof (ta_get_range _ _ _ _ HP) as HPr. unfold MEMORY_SIZE in HPr.
  assert (Hrun : loadIndirect instr s = Ret tt (write_result d (peek s T) s)).
  { unfold loadIndirect, PCoffset9, DR in *. rewrite Hd, run_reg.
    fold (R s R_PC). rewrite Hpc, Hoff. cbn [num_add].
    rewrite (bind_Ret _ _ _ _ _ (memRead_cell (pc + off) s HPr HkP)), HP.
    rewrite (bind_Ret _ _ _ _ _ (memRead_pure (Num T) s ltac:(congruence))).
    apply write_flags, Hdr. }
  exists (write_result d (peek s T) s). split; [exact Hrun |].
  apply write_result_spec, Hdr.
Qed.

(** The pointer cell 0x3001 holds 0x4000, where the word 'H' is. *)
Lemma loadIndirect_follows_pointer_witness :
  ∃ s', loadIndirect (Num 0xA001)
          (set_memory (ta_set MEMORY_SIZE (memory hi_example) (Num 0x3001) (Num 0x4000))
                      hi_example) = Ret tt s'
        ∧ R s' 0 = Num 72.
Proof.
  destruct (loadIndirect_follows_pointer
              (set_memory (ta_set MEMORY_SIZE (memory hi_example) (Num 0x3001) (Num 0x4000))
                          hi_example)
              (Num 0xA001) 0x3000 1 0 0x4000)
    as (s' & Hrun & HR & _); try (vm_compute; reflexivity).
  - unfold MR_KBSR. lia.
  - unfold MR_KBSR. lia.
  - exists s'. split; [exact Hrun |]. rewrite HR. vm_compute. reflexivity.
Defined.

(** X12.  STI follows the pointer: with P and T as for LDI, the source
    register's 16-bit value is stored at T when T lies inside memory, and
    dropped otherwise; no other cell and no register changes. *)
Theorem storeIndirect_follows_pointer (s : state) (instr : value) (pc off sr x T : Z) :
  R s R_PC = Num pc →
  PCoffset9 instr = Num off →
  pc + off ≠ MR_KBSR →
  peek s (pc + off) = Num T →
  DR instr = Num sr →
  R s sr = Num x →
  ∃ s', storeIndirect instr s = Ret tt s'
        ∧ (0 <= T < 65536 → peek s' T = Num (x mod 65536))
        ∧ (¬ (0 <= T < 65536) → s' = s)
        ∧ (∀ j, j ≠ T → peek s' j = peek s j)
        ∧ registers s' = registers s ∧ host s' = host s ∧ running s' = running s.
Proof.
  intros Hpc Hoff HkP HP Hsr Hx.
  pose proof (ta_get_range _ _ _ _ HP) as HPr. unfold MEMORY_SIZE in HPr.
  assert (Hrun : storeIndirect instr s
                 = Ret tt (set_memory (ta_set MEMORY_SIZE (memory s) (Num T) (Num x)) s)).
  { unfold storeIndirect, PCoffset9, DR in *. rewrite Hsr, run_reg.
    fold (R s R_PC). rewrite Hpc, Hoff. cbn [num_add].
    rewrite (bind_Ret _ _ _ _ _ (memRead_cell (pc + off) s HPr HkP)), HP.
    rewrite run_reg. fold (R s sr). rewrite Hx. reflexivity. }
  eexists. split; [exact Hrun |].
  split; [intros HT; apply peek_set_memory_eq, HT |].
  split; [| split; [intros j Hj; apply peek_set_memory_ne, Hj | repeat split]].
  intros HT. unfold ta_set, valid_index, MEMORY_SIZE.
  destruct (Z.leb_spec 0 T), (Z.ltb_spec T 65536); cbn [andb]; try lia;
    destruct s; reflexivity.
Qed.

Lemma storeIndirect_follows_pointer_witness :
  ∃ s', storeIndirect (Num 0xB001)
          (set_memory (ta_set MEMORY_SIZE (memory str_example) (Num 0x3001) (Num 0x4000))
                      str_example) = Ret tt s'
        ∧ peek s' 0x4000 = Num 0xBEEF.
Proof.
  destruct (storeIndirect_follows_pointer
              (set_memory (ta_set MEMORY_SIZE (memory str_example) (Num 0x3001) (Num 0x4000))
                          str_example)
              (Num 0xB001) 0x3000 1 0 0xBEEF 0x4000)
    as (s' & Hrun & Hin & _); try (vm_compute; reflexivity).
  - unfold MR_KBSR. lia.
  - exists s'. split; [exact Hrun |]. rewrite Hin by lia. reflexivity.
Defined.

(** ** Properties kept by every instruction *)

Section Soundness.

Context (Q : state → state → Prop) (E : Z → Prop) (T : Prop).

Hypothesis Q_refl : ∀ s, Q s s.
Hypothesis Q_trans : ∀ s1 s2 s3, Q s1 s2 → Q s2 s3 → Q s1 s3.
Hypothesis Q_set_reg :
  ∀ s i v, Q s (set_registers (ta_set R_COUNT (registers s) i v) s).
Hypothesis Q_set_mem :
  ∀ s i v, Q s (set_memory (ta_set MEMORY_SIZE (memory s) i v) s).
Hypothesis Q_halt : ∀ s, Q s (set_running 0 s).
Hypothesis Q_advance : ∀ s, Q s (set_host (advance (host s)) s).
Hypothesis Q_emit : ∀ s bytes, Q s (set_host (emit bytes (host s)) s).
Hypothesis E_quit : E 0.

Lemma sound_ret {A} (a : A) : sound Q E T (ret a).
Proof. intros s. apply Q_refl. Qed.

Lemma sound_bind {A B} (c : M A) (k : A → M B) :
  sound Q E T c → (∀ a, sound Q E T (k a)) → sound Q E T (bind c k).
Proof.
  intros Hc Hk s. unfold bind. specialize (Hc s).
  destruct (c s) as [a s1 | code s1 | s1 |]; try exact Hc.
  specialize (Hk a s1). destruct (k a s1) as [b s2 | code s2 | s2 |].
  - eapply Q_trans; eassumption.
  - destruct Hk as [He Hq]. split; [exact He | eapply Q_trans; eassumption].
  - destruct Hk as [Ht Hq]. split; [exact Ht | eapply Q_trans; eassumption].
  - exact I.
Qed.

Lemma sound_reg i : sound Q E T (reg i).
Proof. intros s. apply Q_refl. Qed.

Lemma sound_mem i : sound Q E T (mem i).
Proof. intros s. apply Q_refl. Qed.

Lemma sound_set_reg i v : sound Q E T (set_reg i v).
Proof. intros s. apply Q_set_reg. Qed.

Lemma sound_set_mem i v : sound Q E T (set_mem i v).
Proof. intros s. apply Q_set_mem. Qed.

Lemma sound_stdout_write bytes : sound Q E T (stdout_write bytes).
Proof. intros s. apply Q_emit. Qed.

Lemma sound_keyIn : sound Q E T keyIn.
Proof. intros s. apply Q_advance. Qed.

Lemma sound_keyInYN : sound Q E T keyInYN.
Proof. intros s. apply Q_advance. Qed.

Lemma sound_exit0 {A} : sound Q E T (@process_exit A 0).
Proof. intros s. split; [exact E_quit | apply Q_refl]. Qed.

(** [sound_known] is extended as lemmas about the program's own functions
    become available. *)
Ltac sound_known := fail.

Ltac sound_auto :=
  repeat first
    [ match goal with
      | |- sound _ _ _ (ret _) => apply sound_ret
      | |- sound _ _ _ (reg _) => apply sound_reg
      | |- sound _ _ _ (mem _) => apply sound_mem
      | |- sound _ _ _ (set_reg _ _) => apply sound_set_reg
      | |- sound _ _ _ (set_mem _ _) => apply sound_set_mem
      | |- sound _ _ _ (stdout_write _) => apply sound_stdout_write
      | |- sound _ _ _ keyIn => apply sound_keyIn
      | |- sound _ _ _ keyInYN => apply sound_keyInYN
      | |- sound _ _ _ (process_exit 0) => apply sound_exit0
      | |- sound _ _ _ (bind _ _) => apply sound_bind; [| intro]
      | |- sound _ _ _ (if ?b then _ else _) => destruct b
      end
    | sound_known ].

Lemma sound_getChar : sound Q E T getChar.
Proof. unfold getChar. sound_auto. Qed.

Lemma sound_memRead address : sound Q E T (memRead address).
Proof.
  unfold memRead. sound_auto; apply sound_getChar.
Qed.

Lemma sound_updateFlags r : sound Q E T (updateFlags r).
Proof. unfold updateFlags. sound_auto. Qed.

Lemma sound_putBuf data : sound Q E T (putBuf data).
Proof. unfold putBuf. sound_auto. Qed.

Lemma sound_console_log str : sound Q E T (console_log str).
Proof. unfold console_log. sound_auto. Qed.

Lemma sound_set_run0 : sound Q E T (set_run 0).
Proof. intros s. apply Q_halt. Qed.

Ltac sound_known ::=
  match goal with
  | |- sound _ _ _ getChar => apply sound_getChar
  | |- sound _ _ _ (memRead _) => apply sound_memRead
  | |- sound _ _ _ (updateFlags _) => apply sound_updateFlags
  | |- sound _ _ _ (putBuf _) => apply sound_putBuf
  | |- sound _ _ _ (console_log _) => apply sound_console_log
  | |- sound _ _ _ (set_run 0) => apply sound_set_run0
  end.

(** [push] is the one place after the image is loaded where the program
    throws. *)
Lemma sound_push buf x : T → sound Q E T (push buf x).
Proof.
  intros Ht s. unfold push.
  destruct (_ <? _); [apply Q_refl | split; [exact Ht | apply Q_refl]].
Qed.

Lemma sound_puts_loop fuel :
  T → ∀ addr buf, sound Q E T (puts_loop fuel addr buf).
Proof.
  intros Ht. induction fuel as [| fuel IH]; intros addr buf; [intros s; exact I |].
  cbn [puts_loop]. sound_auto; first [ apply sound_push, Ht | apply IH ].
Qed.

Lemma sound_putsp_loop fuel :
  T → ∀ addr buf, sound Q E T (putsp_loop fuel addr buf).
Proof.
  intros Ht. induction fuel as [| fuel IH]; intros addr buf; [intros s; exact I |].
  cbn [putsp_loop]. sound_auto; first [ apply sound_push, Ht | apply IH ].
Qed.

Lemma sound_trapHandler fuel instr : T → sound Q E T (trapHandler fuel instr).
Proof.
  intros Ht. unfold trapHandler.
  repeat match goal with
         | |- sound _ _ _ (match ?x with _ => _ end) => destruct x
         end;
    sound_auto;
    first [ apply sound_puts_loop, Ht | apply sound_putsp_loop, Ht ].
Qed.

Ltac sound_handler h := unfold h; try unfold memWrite; cbv zeta; sound_auto.

Lemma sound_add instr : sound Q E T (add instr).
Proof. sound_handler add. Qed.

Lemma sound_bitwiseAnd instr : sound Q E T (bitwiseAnd instr).
Proof. sound_handler bitwiseAnd. Qed.

Lemma sound_bitwiseNot instr : sound Q E T (bitwiseNot instr).
Proof. sound_handler bitwiseNot. Qed.

Lemma sound_branch instr : sound Q E T (branch instr).
Proof. sound_handler branch. Qed.

Lemma sound_jump instr : sound Q E T (jump instr).
Proof. sound_handler jump. Qed.

Lemma sound_jumpRegister instr : sound Q E T (jumpRegister instr).
Proof. sound_handler jumpRegister. Qed.

Lemma sound_load instr : sound Q E T (load instr).
Proof. sound_handler load. Qed.

Lemma sound_loadIndirect instr : sound Q E T (loadIndirect instr).
Proof. sound_handler loadIndirect. Qed.

Lemma sound_loadRegister instr : sound Q E T (loadRegister instr).
Proof. sound_handler loadRegister. Qed.

Lemma sound_loadEffectiveAddress instr : sound Q E T (loadEffectiveAddress instr).
Proof. sound_handler loadEffectiveAddress. Qed.

Lemma sound_store instr : sound Q E T (store instr).
Proof. sound_handler store. Qed.

Lemma sound_storeIndirect instr : sound Q E T (storeIndirect instr).
Proof. sound_handler storeIndirect. Qed.

Lemma sound_storeRegister instr : sound Q E T (storeRegister instr).
Proof. sound_handler storeRegister. Qed.

(** Every handler but [trapHandler] and [abort]. *)
Lemma sound_handlers instr :
  sound Q E T (add instr) ∧ sound Q E T (bitwiseAnd instr)
  ∧ sound Q E T (bitwiseNot instr) ∧ sound Q E T (branch instr)
  ∧ sound Q E T (jump instr) ∧ sound Q E T (jumpRegister instr)
  ∧ sound Q E T (load instr) ∧ sound Q E T (loadIndirect instr)
  ∧ sound Q E T (loadRegister instr) ∧ sound Q E T (loadEffectiveAddress instr)
  ∧ sound Q E T (store instr) ∧ sound Q E T (storeIndirect instr)
  ∧ sound Q E T (storeRegister instr).
Proof.
  exact (conj (sound_add instr) (conj (sound_bitwiseAnd instr)
         (conj (sound_bitwiseNot instr) (conj (sound_branch instr)
         (conj (sound_jump instr) (conj (sound_jumpRegister instr)
         (conj (sound_load instr) (conj (sound_loadIndirect instr)
         (conj (sound_loadRegister instr) (conj (sound_loadEffectiveAddress instr)
         (conj (sound_store instr) (conj (sound_storeIndirect instr)
         (sound_storeRegister instr))))))))))))).
Qed.

Lemma sound_abort : E (-1) → sound Q E T abort.
Proof. intros He s. split; [exact He | apply Q_refl]. Qed.

(** An instruction whose opcode is neither RTI nor RES: it is as sound as
    the trap it may be. *)
Lemma sound_dispatch_regular fuel instr op :
  shr instr (Num 12) = Num op →
  0 <= op <= 15 → op ≠ OP_RTI → op ≠ OP_RES →
  (op = OP_TRAP → sound Q E T (trapHandler fuel instr)) →
  sound Q E T (dispatch fuel instr).
Proof.
  intros Hop Hrange Hrti Hres Htrap. unfold OP_RTI, OP_RES, OP_TRAP in *.
  destruct (sound_handlers instr)
    as (? & ? & ? & ? & ? & ? & ? & ? & ? & ? & ? & ? & ?).
  unfold dispatch. rewrite Hop.
  assert (op = 0 ∨ op = 1 ∨ op = 2 ∨ op = 3 ∨ op = 4 ∨ op = 5 ∨ op = 6 ∨ op = 7
          ∨ op = 9 ∨ op = 10 ∨ op = 11 ∨ op = 12 ∨ op = 14 ∨ op = 15) as Hcases by lia.
  repeat destruct Hcases as [-> | Hcases]; try subst op;
    first [ assumption | apply Htrap; reflexivity ].
Qed.

Lemma sound_dispatch fuel instr : T → E (-1) → sound Q E T (dispatch fuel instr).
Proof.
  intros Ht He.
  destruct (sound_handlers instr)
    as (? & ? & ? & ? & ? & ? & ? & ? & ? & ? & ? & ? & ?).
  pose proof (sound_trapHandler fuel instr Ht).
  pose proof (sound_abort He).
  unfold dispatch.
  repeat match goal with
         | |- sound _ _ _ (match ?x with _ => _ end) => destruct x
         end; assumption.
Qed.

Lemma sound_fetch : sound Q E T fetch.
Proof. unfold fetch. sound_auto. Qed.

Lemma sound_step fuel : T → E (-1) → sound Q E T (step fuel).
Proof.
  intros Ht He. unfold step. apply sound_bind; [apply sound_fetch |].
  intros instr. apply sound_dispatch; [exact Ht | exact He].
Qed.

Lemma sound_run fuel : T → E (-1) → sound Q E T (run fuel).
Proof.
  intros Ht He. induction fuel as [| fuel IH]; [intros s; exact I |].
  intros s. cbn [run]. destruct (truthy _); [| apply Q_refl].
  apply (sound_bind (step fuel) (λ _, run fuel));
    [apply sound_step; [exact Ht | exact He] | intros _; exact IH].
Qed.

Lemma sound_readImage_loop image origin fuel :
  T → ∀ pos, sound Q E T (readImage_loop fuel image origin pos).
Proof.
  intros Ht. induction fuel as [| fuel IH]; intros pos; [intros s; exact I |].
  cbn [readImage_loop]. destruct (_ <? _); [| apply sound_ret].
  destruct (readUInt16BE _ _).
  - apply sound_bind; [apply sound_set_mem | intros _; apply IH].
  - intros s. split; [exact Ht | apply Q_refl].
Qed.

Lemma sound_readImage image : T → sound Q E T (readImage image).
Proof.
  intros Ht. unfold readImage. destruct (readUInt16BE image 0).
  - apply sound_readImage_loop, Ht.
  - intros s. split; [exact Ht | apply Q_refl].
Qed.

Lemma sound_main fuel image : T → E (-1) → sound Q E T (main fuel image).
Proof.
  intros Ht He. unfold main.
  apply sound_bind;
    [apply sound_readImage, Ht | intros _; apply sound_run; [exact Ht | exact He]].
Qed.

End Soundness.

(** ** What the whole machine keeps *)

Lemma host_extends_refl h : host_extends h h.
Proof.
  repeat split; [lia |]. exists []. rewrite app_nil_r. reflexivity.
Qed.

Lemma host_extends_advance h : host_extends h (advance h).
Proof.
  repeat split; [cbn; lia |]. exists []. cbn. rewrite app_nil_r. reflexivity.
Qed.

Lemma progresses_trans s1 s2 s3 :
  progresses s1 s2 → progresses s2 s3 → progresses s1 s3.
Proof.
  intros [Hh1 Hr1] [Hh2 Hr2]. split.
  - eapply host_extends_trans; eassumption.
  - destruct Hr2 as [Hr2 | Hr2]; [rewrite Hr2; exact Hr1 | right; exact Hr2].
Qed.

(** X13.  From loading the image to the end of the loop, and in the loop
    started from any state, whatever the image and the keyboard: bytes are
    only ever appended to the output, the keyboard script is not altered,
    the running flag is only ever cleared, and the process exits only with
    code 0 (quit at the keyboard) or -1 (abort).  This holds of every way
    the program ends, an uncaught exception included: from reading the
    image, or from [buf.push] in PUTS and PUTSP. *)
Theorem machine_progresses (fuel : nat) (image : list byte) :
  sound progresses (λ code, code = 0 ∨ code = -1) True (main fuel image)
  ∧ sound progresses (λ code, code = 0 ∨ code = -1) True (run fuel).
Proof.
  assert (Hrefl : ∀ s, progresses s s)
    by (intros s; split; [apply host_extends_refl | left; reflexivity]).
  split; [apply sound_main | apply sound_run]; try exact Hrefl;
    try exact progresses_trans; auto;
    intros s; intros; split; cbn [host running set_registers set_memory set_running set_host];
    first [ apply host_extends_refl | apply host_extends_advance | apply host_extends_emit
          | left; reflexivity | right; reflexivity ].
Qed.

Lemma words16_ta_set n a i v : words16 a → words16 (ta_set n a i v).
Proof.
  intros Ha. unfold ta_set. destruct i as [k | |]; try exact Ha.
  destruct (valid_index n k); [| exact Ha].
  unfold words16. cbn [cells]. apply map_Forall_insert_2; [| exact Ha].
  apply toUint16_range.
Qed.

(** X14.  Registers and memory only ever hold 16-bit words: the machine
    starts in such a state, and loading an image and running the loop keep
    it so, although the handlers compute with negative offsets and with
    sums beyond 0xFFFF. *)
Theorem words_stay_16_bit (fuel : nat) (image : list byte) (h : Host) :
  wf_state (boot h)
  ∧ sound (λ s s', wf_state s → wf_state s') (λ _, True) True (main fuel image).
Proof.
  split.
  - split.
    + apply map_Forall_empty.
    + apply words16_ta_set. apply map_Forall_empty.
  - apply sound_main; auto.
    + intros s i v [Hm Hr]. split; [exact Hm | apply words16_ta_set, Hr].
    + intros s i v [Hm Hr]. split; [apply words16_ta_set, Hm | exact Hr].
Qed.

Lemma shr_opcode i :
  0 <= i < 65536 → shr (Num i) (Num 12) = Num (i / 4096) ∧ 0 <= i / 4096 <= 15.
Proof.
  intros Hi. split.
  - unfold shr. cbn [toInt32]. rewrite (wrap32_small i) by lia.
    change (wrap32 12 mod 32) with 12. rewrite Z.shiftr_div_pow2 by lia. reflexivity.
  - split; [apply Z.div_pos; lia | ].
    assert (i / 4096 < 16) by (apply Z.div_lt_upper_bound; lia). lia.
Qed.

(** X15.  The reserved opcodes RTI (8) and RES (13) end the process with
    code -1 and leave the state as it was.  Under every other opcode the
    process can end only with code 0, at a keyboard request where the user
    quits; and decoding a 16-bit instruction word throws only when the word
    is a TRAP with vector PUTS or PUTSP (from [buf.push], on a string
    without terminator), and then the state is as it was. *)
Theorem dispatch_exit_codes (fuel : nat) (i : Z) (s : state) :
  0 <= i < 65536 →
  (i / 4096 = OP_RTI ∨ i / 4096 = OP_RES → dispatch fuel (Num i) s = Exit (-1) s)
  ∧ (i / 4096 ≠ OP_RTI → i / 4096 ≠ OP_RES →
     match dispatch fuel (Num i) s with
     | Exit code _ => code = 0
     | Throw s' =>
         s' = s ∧ i / 4096 = OP_TRAP ∧ (i mod 256 = TRAP_PUTS ∨ i mod 256 = TRAP_PUTSP)
     | _ => True
     end).
Proof.
  intros Hi. destruct (shr_opcode i Hi) as [Hop Hrange]. split.
  - unfold dispatch, OP_RTI, OP_RES. rewrite Hop. intros [-> | ->]; reflexivity.
  - intros Hrti Hres.
    assert (Hexit : sound (λ _ _, True) (λ code, code = 0) True (dispatch fuel (Num i))).
    { apply sound_dispatch_regular with (op := i / 4096); auto.
      intros _. apply sound_trapHandler; auto. }
    specialize (Hexit s).
    destruct (dispatch fuel (Num i) s) as [u s' | code s' | s' |] eqn:Hrun;
      [exact I | tauto | | exact I].
    destruct (decide (i / 4096 = OP_TRAP)) as [Htrap | Hother].
    + assert (Hd : dispatch fuel (Num i) s = trapHandler fuel (Num i) s).
      { unfold dispatch. rewrite Hop, Htrap. reflexivity. }
      rewrite Hd in Hrun. apply trapHandler_throws in Hrun.
      destruct Hrun as [-> Hvec]. split; [reflexivity |]. split; [exact Htrap |].
      destruct (band_ones (Num i) 8 ltac:(lia)) as [Hband _].
      change (Z.ones 8) with 255 in Hband. cbn [toInt32] in Hband.
      rewrite wrap32_mod_pow2 in Hband by lia. change (2 ^ 8) with 256 in Hband.
      rewrite Hband in Hvec. destruct Hvec as [[= Hv] | [= Hv]]; [left | right]; exact Hv.
    + assert (Hs : sound (λ _ _, True) (λ _, True) False (dispatch fuel (Num i))).
      { apply sound_dispatch_regular with (op := i / 4096); auto.
        intros Htrap. contradiction. }
      specialize (Hs s). rewrite Hrun in Hs. tauto.
Qed.

Lemma dispatch_exit_codes_witness :
  (0x8000 / 4096 = OP_RTI ∨ 0x8000 / 4096 = OP_RES →
   dispatch 0 (Num 0x8000) (boot quiet_host) = Exit (-1) (boot quiet_host))
  ∧ (0x8000 / 4096 ≠ OP_RTI → 0x8000 / 4096 ≠ OP_RES →
     match dispatch 0 (Num 0x8000) (boot quiet_host) with
     | Exit code _ => code = 0
     | Throw s' =>
         s' = boot quiet_host ∧ 0x8000 / 4096 = OP_TRAP
         ∧ (0x8000 mod 256 = TRAP_PUTS ∨ 0x8000 mod 256 = TRAP_PUTSP)
     | _ => True
     end).
Proof.
  apply (dispatch_exit_codes 0 0x8000 (boot quiet_host)). lia.
Defined.

(** X16.  The loop of [main] returns only when the running flag is clear. *)
Theorem run_returns_halted (fuel : nat) :
  ∀ s s', run fuel s = Ret tt s' → truthy (Num (running s')) = false.
Proof.
  induction fuel as [| fuel IH]; intros s s' Hrun; [discriminate |].
  cbn [run] in Hrun.
  destruct (truthy (Num (running s))) eqn:Hr.
  - unfold bind in Hrun. destruct (step fuel s) as [[] s1 | | |]; try discriminate.
    eapply IH. exact Hrun.
  - injection Hrun as <-. exact Hr.
Qed.

Lemma run_returns_halted_witness :
  truthy (Num (running (set_running 0
                 (set_host (emit (bytes_of_string "HALT" ++ [10]) quiet_host)
                    (set_registers (ta_set R_COUNT (registers halt_example) (Num R_PC) (Num 0x3001))
                       halt_example))))) = false.
Proof.
  apply (run_returns_halted 2 halt_example). vm_compute. reflexivity.
Defined.

(** X17.  Once the word fetched is a TRAP with vector 0x25, the loop
    ends: it writes the line HALT, clears the running flag and returns,
    with registers and memory as the fetch left them. *)
Theorem halt_stops_loop (fuel : nat) (s s1 : state) (instr : value) :
  truthy (Num (running s)) = true →
  fetch s = Ret instr s1 →
  shr instr (Num 12) = Num OP_TRAP →
  band instr (Num 0xFF) = Num TRAP_HALT →
  ∃ s', run (S (S fuel)) s = Ret tt s'
        ∧ running s' = 0
        ∧ stdout (host s') = stdout (host s1) ++ bytes_of_string "HALT" ++ [10]
        ∧ registers s' = registers s1 ∧ memory s' = memory s1.
Proof.
  intros Hrun Hfetch Hop Hvec.
  eexists. split.
  - cbn [run]. rewrite Hrun. unfold step.
    rewrite bind_assoc, (bind_Ret _ _ _ _ _ Hfetch).
    unfold dispatch. rewrite Hop. unfold OP_TRAP. cbv iota beta.
    unfold trapHandler. rewrite Hvec. unfold TRAP_HALT. cbv iota beta.
    unfold console_log, stdout_write, set_run, bind. cbn [running set_running truthy].
    reflexivity.
  - cbn [running set_running host set_host stdout emit registers memory].
    repeat split.
Qed.

Lemma halt_stops_loop_witness :
  ∃ s', run 2 halt_example = Ret tt s'
        ∧ running s' = 0
        ∧ stdout (host s') = stdout (host (set_registers
                               (ta_set R_COUNT (registers halt_example) (Num R_PC) (Num 0x3001))
                               halt_example)) ++ bytes_of_string "HALT" ++ [10]
        ∧ registers s' = registers (set_registers
                               (ta_set R_COUNT (registers halt_example) (Num R_PC) (Num 0x3001))
                               halt_example)
        ∧ memory s' = memory (set_registers
                               (ta_set R_COUNT (registers halt_example) (Num R_PC) (Num 0x3001))
                               halt_example).
Proof.
  apply (halt_stops_loop 0 halt_example _ (Num 0xF025)); vm_compute; reflexivity.
Defined.

(** ** The other traps *)

(** X18.  A TRAP whose vector is not one of 0x20..0x25 does nothing: the
    handler returns with the state untouched. *)
Theorem trap_unknown_vector (fuel : nat) (instr : value) (s : state) (t : Z) :
  band instr (Num 0xFF) = Num t →
  ¬ (TRAP_GETC <= t <= TRAP_HALT) →
  trapHandler fuel instr s = Ret tt s.
Proof.
  intros Hvec Ht. unfold trapHandler. rewrite Hvec.
  unfold TRAP_GETC, TRAP_HALT in Ht.
  destruct t as [| p | p]; try reflexivity.
  do 6 (destruct p as [p | p |]; try reflexivity); lia.
Qed.

Lemma trap_unknown_vector_witness :
  trapHandler 0 (Num 0xF026) hi_example = Ret tt hi_example.
Proof.
  apply (trap_unknown_vector 0 (Num 0xF026) hi_example 0x26).
  - vm_compute. reflexivity.
  - unfold TRAP_GETC, TRAP_HALT. lia.
Defined.

Lemma utf8_single_byte b :
  0 <= b < 256 →
  Utf8.encode (Utf8.decode [b]) = if b <? 128 then [b] else [0xEF; 0xBF; 0xBD].
Proof.
  intros Hb. unfold Utf8.decode. cbn [Utf8.decode_from]. unfold Utf8.lead, Utf8.within.
  destruct (Z.ltb_spec b 128) as [Hlow | Hhigh].
  - destruct (Z.leb_spec 0 b); [| lia]. destruct (Z.leb_spec b 0x7F); [| lia].
    cbn [andb app]. unfold Utf8.encode. cbn [flat_map app]. unfold Utf8.encode1.
    destruct (Z.ltb_spec b 0x80); [reflexivity | lia].
  - destruct (Z.leb_spec b 0x7F); [lia |]. rewrite andb_false_r.
    destruct ((0xC2 <=? b) && (b <=? 0xDF)); [reflexivity |].
    destruct ((0xE0 <=? b) && (b <=? 0xEF)); [reflexivity |].
    destruct ((0xF0 <=? b) && (b <=? 0xF4)); reflexivity.
Qed.

(** X19.  OUT writes the character in the low 8 bits of R0: that one byte
    when it is below 0x80, and the three bytes of U+FFFD otherwise (a lone
    byte of 0x80 or more is not UTF-8).  Nothing else changes. *)
Theorem out_writes_low_byte (fuel : nat) (instr : value) (s : state) (x : Z) :
  band instr (Num 0xFF) = Num TRAP_OUT →
  R s R_R0 = Num x →
  ∃ s', trapHandler fuel instr s = Ret tt s'
        ∧ stdout (host s')
          = stdout (host s) ++ (if x mod 256 <? 128 then [x mod 256] else [0xEF; 0xBF; 0xBD])
        ∧ registers s' = registers s ∧ memory s' = memory s ∧ running s' = running s.
Proof.
  intros Hvec Hx. unfold trapHandler. rewrite Hvec. unfold TRAP_OUT. cbv iota beta.
  rewrite run_reg. fold (R s R_R0). rewrite Hx.
  unfold putBuf, stdout_write. eexists. split; [reflexivity |].
  cbn [host set_host stdout emit registers memory running map toUint8].
  rewrite utf8_single_byte by (apply Z.mod_pos_bound; lia).
  repeat split.
Qed.

Lemma out_writes_low_byte_witness :
  ∃ s', trapHandler 0 (Num 0xF021) str_example = Ret tt s'
        ∧ stdout (host s')
          = stdout (host str_example)
            ++ (if 0xBEEF mod 256 <? 128 then [0xBEEF mod 256] else [0xEF; 0xBF; 0xBD])
        ∧ registers s' = registers str_example ∧ memory s' = memory str_example
        ∧ running s' = running str_example.
Proof.
  apply (out_writes_low_byte 0 (Num 0xF021) str_example 0xBEEF); vm_compute; reflexivity.
Defined.

(** X20.  GETC and IN put the character code of the key in R0, reduced to
    16 bits, and 0 when the key trims to the empty string; IN first writes
    its prompt and a line feed.  Unless the key is q or Q they use exactly
    one keyboard request; COND is not updated. *)
Theorem getc_stores_key (fuel : nat) (instr : value) (s : state) (t : Z) :
  band instr (Num 0xFF) = Num t →
  t = TRAP_GETC ∨ t = TRAP_IN →
  quits (host s) = false →
  ∃ s', trapHandler fuel instr s = Ret tt s'
        ∧ R s' R_R0 = Num (toUint16 (charCodeAt0 (keyIn_input (host s) (consumed (host s)))))
        ∧ (keyIn_input (host s) (consumed (host s)) = [] → R s' R_R0 = Num 0)
        ∧ (is_q (keyIn_input (host s) (consumed (host s))) = false →
           consumed (host s') = S (consumed (host s)))
        ∧ stdout (host s')
          = stdout (host s)
            ++ (if t =? TRAP_IN then bytes_of_string "Enter a character: " ++ [10] else [])
        ∧ (∀ k, k ≠ R_R0 → R s' k = R s k)
        ∧ memory s' = memory s ∧ running s' = running s.
Proof.
  intros Hvec Ht Hq. unfold trapHandler. rewrite Hvec.
  destruct Ht as [-> | ->]; unfold TRAP_GETC, TRAP_IN; cbv iota beta.
  - unfold bind. rewrite getChar_run, Hq. unfold set_reg.
    eexists. split; [reflexivity |].
    unfold R. cbn [registers set_registers set_host host memory running].
    split; [apply ta_get_set_eq; reflexivity |].
    split; [intros ->; apply ta_get_set_eq; reflexivity |].
    split; [intros Hnq; unfold after_getChar; rewrite Hnq; reflexivity |].
    split.
    { unfold after_getChar. destruct (is_q _); cbn; rewrite app_nil_r; reflexivity. }
    split; [intros k Hk; apply ta_get_set_ne; congruence | split; reflexivity].
  - unfold console_log, stdout_write. unfold bind at 1. unfold bind.
    rewrite getChar_run. cbn [host set_host].
    assert (Hq' : quits (emit (bytes_of_string "Enter a character: " ++ [10]) (host s)) = false)
      by exact Hq.
    rewrite Hq'. unfold set_reg.
    eexists. split; [reflexivity |].
    unfold R. cbn [registers set_registers set_host host memory running].
    split; [apply ta_get_set_eq; reflexivity |].
    split; [intros Hk; cbn [emit keyIn_input consumed]; rewrite Hk;
            apply ta_get_set_eq; reflexivity |].
    split; [intros Hnq; unfold after_getChar; cbn [emit keyIn_input consumed];
            rewrite Hnq; reflexivity |].
    split.
    { unfold after_getChar. cbn [emit keyIn_input consumed].
      destruct (is_q _); reflexivity. }
    split; [intros k Hk; apply ta_get_set_ne; congruence | split; reflexivity].
Qed.

Lemma getc_stores_key_witness :
  ∃ s', trapHandler 0 (Num 0xF020) (boot (typing_host 97)) = Ret tt s'
        ∧ R s' R_R0 = Num 97.
Proof.
  destruct (getc_stores_key 0 (Num 0xF020) (boot (typing_host 97)) 0x20)
    as (s' & Hrun & HR & _).
  - vm_compute. reflexivity.
  - left. reflexivity.
  - vm_compute. reflexivity.
  - exists s'. split; [exact Hrun |]. rewrite HR. vm_compute. reflexivity.
Defined.

(** ** The PUTSP scan *)

Lemma peek_word16 s j :
  wf_state s → 0 <= j < 65536 →
  peek s j = Num (word_at s j) ∧ 0 <= word_at s j < 65536.
Proof.
  intros [Hm _] Hj. unfold word_at, peek, ta_get.
  rewrite valid_address by exact Hj. cbn [toUint16].
  assert (0 <= default 0 (cells (memory s) !! j) < 65536) as Hr.
  { destruct (cells (memory s) !! j) as [w |] eqn:Hw; cbn; [| lia].
    exact (Hm j w Hw). }
  rewrite Z.mod_small by exact Hr. split; [reflexivity | exact Hr].
Qed.

Lemma putsp_chars w buf :
  0 <= w < 65536 →
  map toUint8 (if truthy (shr (Num w) (Num 8))
               then buf ++ [band (Num w) (Num 0xFF); shr (Num w) (Num 8)]
               else buf ++ [band (Num w) (Num 0xFF)])
  = map toUint8 buf ++ unpack w.
Proof.
  intros Hw.
  assert (Hshr : shr (Num w) (Num 8) = Num (w / 256)).
  { unfold shr. cbn [toInt32]. rewrite (wrap32_small w) by lia.
    change (wrap32 8 mod 32) with 8. rewrite Z.shiftr_div_pow2 by lia. reflexivity. }
  destruct (band_ones (Num w) 8 ltac:(lia)) as [Hband _].
  change (Z.ones 8) with 255 in Hband. cbn [toInt32] in Hband.
  rewrite wrap32_mod_pow2 in Hband by lia. change (2 ^ 8) with 256 in Hband.
  rewrite Hshr, Hband. cbn [truthy]. unfold unpack.
  assert (0 <= w / 256 < 256) as Hhi.
  { split; [apply Z.div_pos; lia | apply Z.div_lt_upper_bound; lia]. }
  destruct (w / 256 =? 0); cbn [negb]; rewrite map_app; cbn [map toUint8];
    rewrite Z.mod_mod by lia; [reflexivity |].
  rewrite (Z.mod_small (w / 256)) by lia. reflexivity.
Qed.

(** One round of the PUTSP scan on a word that is not zero, with room in
    the array for both of its bytes. *)
Lemma putsp_loop_step fuel a buf s :
  ta_get MEMORY_SIZE (memory s) a ≠ Num 0 →
  Z.of_nat (length buf) + 2 <= MAX_ARRAY_LENGTH →
  putsp_loop (S fuel) a buf s
  = let c := ta_get MEMORY_SIZE (memory s) a in
    putsp_loop fuel (num_add a (Num 1))
      (if truthy (shr c (Num 8))
       then buf ++ [band c (Num 0xFF); shr c (Num 8)]
       else buf ++ [band c (Num 0xFF)]) s.
Proof.
  intros Hnz Hlen. rewrite putsp_loop_unfold. cbv zeta.
  rewrite not_zero_word by exact Hnz.
  unfold bind at 1. rewrite push_fits by lia. unfold bind at 1.
  destruct (truthy _).
  - rewrite push_fits by (rewrite length_app; cbn [length]; lia).
    rewrite <- app_assoc. reflexivity.
  - reflexivity.
Qed.

Lemma putsp_loop_scan s (n : nat) :
  wf_state s →
  ∀ a buf (fuel : nat),
    0 <= a → a + Z.of_nat n <= 0xFFFF →
    (∀ j, a <= j < a + Z.of_nat n → word_at s j ≠ 0) →
    word_at s (a + Z.of_nat n) = 0 →
    Z.of_nat (length buf) + 2 * Z.of_nat n <= MAX_ARRAY_LENGTH →
    (n < fuel)%nat →
    ∃ buf', putsp_loop fuel (Num a) buf s = Ret (Num (a + Z.of_nat n), buf') s
            ∧ map toUint8 buf'
              = map toUint8 buf ++ flat_map (λ j, unpack (word_at s j)) (seqZ a (Z.of_nat n)).
Proof.
  intros Hwf. induction n as [| n IH]; intros a buf fuel Ha Hend Hnz Hz Hlen Hfuel;
    (destruct fuel as [| fuel]; [lia |]).
  - rewrite putsp_loop_unfold; cbv zeta; fold (peek s a).
    rewrite Z.add_0_r in *.
    destruct (peek_word16 s a Hwf ltac:(lia)) as [-> _]. rewrite Hz. cbn.
    exists buf. split; [reflexivity |]. rewrite app_nil_r. reflexivity.
  - destruct (peek_word16 s a Hwf ltac:(lia)) as [Hpeek Hrange].
    rewrite putsp_loop_step; [| fold (peek s a); rewrite Hpeek | lia].
    2: { intros [= H0]. apply (Hnz a); [lia | exact H0]. }
    cbv zeta. fold (peek s a). rewrite Hpeek.
    cbn [num_add].
    destruct (IH (a + 1)
                 (if truthy (shr (Num (word_at s a)) (Num 8))
                  then buf ++ [band (Num (word_at s a)) (Num 0xFF); shr (Num (word_at s a)) (Num 8)]
                  else buf ++ [band (Num (word_at s a)) (Num 0xFF)]) fuel)
      as (buf' & Hrun & Hbytes); try lia.
    + intros j Hj. apply Hnz. lia.
    + rewrite <- Hz. f_equal. lia.
    + destruct (truthy _); rewrite length_app; cbn [length]; lia.
    + exists buf'. split.
      * rewrite Hrun. do 3 f_equal. lia.
      * rewrite Hbytes, putsp_chars by exact Hrange.
        rewrite (seqZ_cons a) by lia. cbn [flat_map].
        replace (Z.succ a) with (a + 1) by lia.
        replace (Z.pred (Z.of_nat (S n))) with (Z.of_nat n) by lia.
        rewrite <- app_assoc. reflexivity.
Qed.

(** X21.  In a state of 16-bit words, when the first zero word at or after
    R0 is at [z] <= 0xFFFF, PUTSP takes from each word M[R0], ..., M[z-1]
    its low byte and then, unless it is zero, its high byte, and writes
    these bytes, decoded and re-encoded as UTF-8, to the output (for bytes
    below 0x80: these bytes themselves).  Registers, memory and the running
    flag are unchanged. *)
Theorem putsp_emits_packed_bytes (fuel : nat) (s : state) (instr : value) (a z : Z) :
  wf_state s →
  band instr (Num 0xFF) = Num TRAP_PUTSP →
  R s R_R0 = Num a →
  0 <= a <= z → z <= 0xFFFF →
  word_at s z = 0 →
  (∀ j, a <= j < z → word_at s j ≠ 0) →
  (Z.to_nat (z - a) < fuel)%nat →
  let bytes := flat_map (λ j, unpack (word_at s j)) (seqZ a (z - a)) in
  ∃ s', trapHandler fuel instr s = Ret tt s'
        ∧ stdout (host s') = stdout (host s) ++ Utf8.encode (Utf8.decode bytes)
        ∧ (Forall (λ b, 0 <= b < 0x80) bytes → stdout (host s') = stdout (host s) ++ bytes)
        ∧ registers s' = registers s ∧ memory s' = memory s ∧ running s' = running s.
Proof.
  intros Hwf Hvec HR0 Ha Hz Hzero Hbefore Hfuel bytes.
  pose proof (putsp_loop_scan s (Z.to_nat (z - a)) Hwf a [] fuel) as Hscan.
  rewrite Z2Nat.id in Hscan by lia.
  replace (a + (z - a)) with z in Hscan by lia.
  destruct Hscan as (buf' & Hrun & Hbytes); try assumption; try lia.
  { cbn [length]. rewrite MAX_ARRAY_LENGTH_eq. lia. }
  cbn [map app] in Hbytes. fold bytes in Hbytes.
  unfold trapHandler. rewrite Hvec. unfold TRAP_PUTSP. cbv iota beta.
  rewrite run_reg. fold (R s R_R0). rewrite HR0.
  rewrite (bind_Ret _ _ _ _ _ Hrun). cbn [snd].
  unfold putBuf, stdout_write. eexists. split; [reflexivity |].
  cbn [host set_host stdout emit registers memory running]. rewrite Hbytes.
  split; [reflexivity |]. split; [| repeat split].
  intros Hascii. rewrite utf8_ascii_roundtrip by exact Hascii. reflexivity.
Qed.

Lemma putsp_emits_packed_bytes_witness :
  ∃ s', trapHandler 3 (Num 0xF024) packed_example = Ret tt s'
        ∧ stdout (host s') = bytes_of_string "Hi!".
Proof.
  destruct (putsp_emits_packed_bytes 3 packed_example (Num 0xF024) 0x4000 0x4002)
    as (s' & Hrun & _ & Hout & _).
  - split; unfold packed_example; cbn [memory registers];
      repeat apply words16_ta_set; apply map_Forall_empty.
  - vm_compute. reflexivity.
  - vm_compute. reflexivity.
  - lia.
  - lia.
  - vm_compute. reflexivity.
  - intros j Hj. assert (j = 0x4000 ∨ j = 0x4001) as [-> | ->] by lia;
      vm_compute; discriminate.
  - vm_compute. lia.
  - exists s'. split; [exact Hrun |].
    assert (Hbytes : flat_map (λ j, unpack (word_at packed_example j))
                       (seqZ 0x4000 (0x4002 - 0x4000)) = [72; 105; 33])
      by (vm_compute; reflexivity).
    rewrite Hbytes in Hout. rewrite Hout; [reflexivity |].
    repeat constructor; lia.
Defined.

(** ** When the loader fails *)

Lemma readImage_loop_even (image : list byte) origin :
  Z.even (Z.of_nat (List.length image)) = true →
  ∀ (fuel : nat) pos s,
    0 <= pos →
    (pos + 1) * 2 <= Z.of_nat (List.length image) →
    Z.of_nat (List.length image) - 2 * pos <= 2 * Z.of_nat fuel →
    ∃ s', readImage_loop fuel image origin pos s = Ret tt s'.
Proof.
  intros Heven. induction fuel as [| fuel IH]; intros pos s Hpos Hguard Hfuel; [lia |].
  rewrite readImage_loop_unfold.
  destruct (Z.ltb_spec ((pos + 1) * 2) (Z.of_nat (List.length image))) as [Hin | Hout];
    [| eauto].
  assert (Z.of_nat (List.length image) ≠ (pos + 1) * 2 + 1).
  { intros Heq. rewrite Heq in Heven.
    rewrite Z.add_comm, Z.mul_comm, Z.even_add_mul_2 in Heven. discriminate. }
  destruct (readUInt16BE_inside image ((pos + 1) * 2)) as (a & b & _ & _ & ->); [lia | lia |].
  apply IH; lia.
Qed.

Lemma readImage_short (image : list byte) s :
  (List.length image < 2)%nat → readImage image s = Throw s.
Proof.
  intros Hlen. unfold readImage. rewrite readUInt16BE_outside by lia. reflexivity.
Qed.

(** X22.  The loader returns exactly on the streams of even length at
    least 2; on a stream shorter than 2 bytes or of odd length it throws.
    It never loops and never ends the process, and in either case it leaves
    the registers (PC stays where it was, whatever the origin), the running
    flag and the host untouched. *)
Theorem readImage_outcome (image : list byte) (s : state) :
  ∃ s', readImage image s
        = (if (2 <=? Z.of_nat (List.length image)) && Z.even (Z.of_nat (List.length image))
           then Ret tt s' else Throw s')
        ∧ registers s' = registers s ∧ running s' = running s ∧ host s' = host s.
Proof.
  assert (Hframe : sound (λ s s', registers s' = registers s ∧ running s' = running s
                                  ∧ host s' = host s)
                         (λ _, True) True (readImage image)).
  { apply sound_readImage; auto.
    intros s1 s2 s3 (? & ? & ?) (? & ? & ?). repeat split; congruence. }
  specialize (Hframe s).
  destruct (Z.leb_spec 2 (Z.of_nat (List.length image))) as [Hlen | Hshort]; cbn [andb].
  - destruct (Z.even (Z.of_nat (List.length image))) eqn:Heven.
    + assert (∃ s', readImage image s = Ret tt s') as [s' Hrun].
      { unfold readImage.
        destruct (readUInt16BE_inside image 0) as (a & b & _ & _ & ->); [lia | lia |].
        apply readImage_loop_even; [exact Heven | lia | lia | lia]. }
      rewrite Hrun in Hframe. exists s'. split; [exact Hrun | exact Hframe].
    + assert (Hodd : Z.odd (Z.of_nat (List.length image)) = true)
        by (rewrite <- Z.negb_even, Heven; reflexivity).
      assert (2 ≠ List.length image)%nat
        by (intros Heq; rewrite <- Heq in Hodd; discriminate).
      destruct (readImage_odd_throws image s Hodd ltac:(lia)) as [s' Hrun].
      rewrite Hrun in Hframe. exists s'. split; [exact Hrun | apply Hframe].
  - exists s. rewrite readImage_short by lia. repeat split.
Qed.

(** ** Sign extension, once more *)

(** X23.  For a field of 1 to 16 bits, [signExtend] returns a number
    in [-2^(N-1), 2^(N-1)) congruent to [x] modulo 2^N: it depends only on
    the low [N] bits of [x], is [x mod 2^N] when bit [N-1] is clear and
    [x mod 2^N - 2^N] when it is set. *)
Theorem signExtend_twos_complement (x N : Z) :
  1 <= N <= 16 →
  ∃ r, signExtend (Num x) (Num N) = Num r
       ∧ - 2 ^ (N - 1) <= r < 2 ^ (N - 1)
       ∧ r mod 2 ^ N = x mod 2 ^ N
       ∧ r = x mod 2 ^ N - (if Z.testbit x (N - 1) then 2 ^ N else 0).
Proof.
  intros HN. exists (sext x N).
  split; [apply signExtend_sext, HN |].
  split; [apply sext_range; lia |].
  split; [| reflexivity].
  assert (Hpos : 0 < 2 ^ N) by (apply Z.pow_pos_nonneg; lia).
  unfold sext. destruct (Z.testbit x (N - 1)).
  - replace (x mod 2 ^ N - 2 ^ N) with (x mod 2 ^ N + (-1) * 2 ^ N) by ring.
    rewrite Z_mod_plus_full. apply Z.mod_mod. lia.
  - rewrite Z.sub_0_r. apply Z.mod_mod. lia.
Qed.

Lemma signExtend_twos_complement_witness :
  ∃ r, signExtend (Num 0x1FF) (Num 9) = Num r
       ∧ - 2 ^ (9 - 1) <= r < 2 ^ (9 - 1)
       ∧ r mod 2 ^ 9 = 0x1FF mod 2 ^ 9
       ∧ r = 0x1FF mod 2 ^ 9 - (if Z.testbit 0x1FF (9 - 1) then 2 ^ 9 else 0).
Proof.
  apply (signExtend_twos_complement 0x1FF 9). lia.
Defined.

(** ** Fetching *)

(** X24.  A fetch from a cell other than KBSR returns the word stored there
    and advances PC by one modulo 2^16 (from 0xFFFF to 0); no other
    register, no memory cell and nothing of the host changes. *)
Theorem fetch_advances_pc (s : state) (pc : Z) :
  R s R_PC = Num pc →
  0 <= pc < 65536 →
  pc ≠ MR_KBSR →
  ∃ s', fetch s = Ret (peek s pc) s'
        ∧ R s' R_PC = Num ((pc + 1) mod 65536)
        ∧ (∀ k, k ≠ R_PC → R s' k = R s k)
        ∧ only_registers s s'.
Proof.
  intros Hpc Hrange Hk. unfold fetch.
  rewrite run_reg. fold (R s R_PC). rewrite Hpc.
  rewrite (bind_Ret _ _ _ _ _ (memRead_cell pc s Hrange Hk)).
  rewrite run_reg. fold (R s R_PC). rewrite Hpc, run_set_reg. unfold ret.
  eexists. split; [reflexivity |].
  unfold R. cbn [registers set_registers num_add].
  split; [apply ta_get_set_eq; reflexivity |].
  split; [intros k Hne; apply ta_get_set_ne; congruence | repeat split].
Qed.

Lemma fetch_advances_pc_witness :
  ∃ s', fetch ld_example = Ret (peek ld_example 0xFFFF) s'
        ∧ R s' R_PC = Num ((0xFFFF + 1) mod 65536)
        ∧ (∀ k, k ≠ R_PC → R s' k = R ld_example k)
        ∧ only_registers ld_example s'.
Proof.
  apply (fetch_advances_pc ld_example 0xFFFF).
  - vm_compute. reflexivity.
  - lia.
  - unfold MR_KBSR. lia.
Defined.



(** ** The first branch *)

(** X6.  The machine starts with COND = 0 and loading an image does not
    change it, so a BR executed right after the load, before any
    flag-setting instruction, is not taken, whatever its n, z, p bits
    (BRnzp included): it returns the state as it was. *)
Theorem branch_before_first_flags (h : Host) (image : list byte) (s : state) (instr : value) :
  readImage image (boot h) = Ret tt s →
  R s R_COND = Num 0 ∧ branch instr s = Ret tt s.
Proof.
  intros Hload.
  assert (Hframe : sound (λ s s', registers s' = registers s) (λ _, True) True
                         (readImage image)).
  { apply sound_readImage; auto. intros s1 s2 s3 H1 H2. congruence. }
  specialize (Hframe (boot h)). rewrite Hload in Hframe.
  assert (Hc : R s R_COND = Num 0).
  { unfold R. rewrite Hframe. vm_compute. reflexivity. }
  split; [exact Hc | apply branch_cond_zero, Hc].
Qed.

Lemma branch_before_first_flags_witness :
  R (set_memory (ta_set MEMORY_SIZE new_Uint16Array (Num 0x3000) (Num 0x0E05)) (boot quiet_host))
    R_COND = Num 0
  ∧ branch (Num 0x0E05)
      (set_memory (ta_set MEMORY_SIZE new_Uint16Array (Num 0x3000) (Num 0x0E05))
         (boot quiet_host))
    = Ret tt (set_memory (ta_set MEMORY_SIZE new_Uint16Array (Num 0x3000) (Num 0x0E05))
                (boot quiet_host)).
Proof.
  apply (branch_before_first_flags quiet_host [x30; x00; x0e; x05]%byte).
  vm_compute. reflexivity.
Defined.
